(** * Gulf Global Tours API: a shallow embedding of [main.py] and [schemas.py]

    The handlers of [main.py] are Python functions over dictionaries that
    come from, and go to, a MongoDB database.  They are embedded here as
    Rocq functions:

    - a Python [dict] with string keys is a [gmap string value];
    - an exception is the left summand of [result], with the bind of the
      error monad threading it through the handler;
    - the database is an explicit [Store] that a writing handler returns
      next to its result.

    [database.py] (the handle [db] and the helpers [create_document] and
    [get_documents]) is not among the sources; the store operations are
    modelled from the collaborator contract of the specification and are
    marked as such. *)

From Stdlib Require Import ZArith String Ascii List Permutation Sorted Lia.
From stdpp Require Import base option list gmap strings pretty.

Open Scope string_scope.
Open Scope list_scope.
Open Scope Z_scope.

Set Warnings "-register-all".

(** ** Exceptions

    [main.py] raises [HTTPException] itself: with status 404 for what the
    specification calls NotFound, with status 400 for its ValidationError
    of the capacity rule and for its BadRequest.  The other exceptions are
    raised by the libraries underneath. *)

Inductive exn : Type :=
  | HTTPException (status_code : Z) (detail : string)
  | PydanticValidationError  (* a field constraint of a schema is violated *)
  | TypeError                (* an operator applied to unsupported operands *)
  | KeyError (key : string)  (* [d[k]] on a dictionary without [k] *)
  | NotRendered.             (* [str] of an array, which is not modelled *)

Definition result (A : Type) : Type := (exn + A)%type.

Definition raise {A : Type} (e : exn) : result A := inl e.

#[global] Instance result_ret : MRet result := λ A x, inr x.

#[global] Instance result_bind : MBind result :=
  λ A B f m, match m with inl e => inl e | inr x => f x end.

#[global] Instance result_fmap : FMap result :=
  λ A B f m, match m with inl e => inl e | inr x => inr (f x) end.

(** ** bson.ObjectId

    The bytes of an identifier, twelve for every identifier the store
    generates, written as two hexadecimal digits each.  The class
    belongs to the [bson] package; what is modelled is its documented
    contract: [str] prints the bytes in lower-case hexadecimal, and the
    constructor accepts a string of twenty-four characters that
    [bytes.fromhex] reads, raising [InvalidId] otherwise.  [bytes.fromhex]
    reads pairs of hexadecimal digits (either case) and skips ASCII
    whitespace before a pair and at the end, so that an accepted string
    holding whitespace gives fewer than twelve bytes. *)

Record ObjectId : Type := mkObjectId { binary : list Byte.byte }.

Definition hex_digit (n : N) : ascii :=
  match n with
  | 0 => "0" | 1 => "1" | 2 => "2" | 3 => "3" | 4 => "4" | 5 => "5"
  | 6 => "6" | 7 => "7" | 8 => "8" | 9 => "9" | 10 => "a" | 11 => "b"
  | 12 => "c" | 13 => "d" | 14 => "e" | _ => "f"
  end%N%char.

Definition hex_value (c : ascii) : option N :=
  let n := N_of_ascii c in
  if (48 <=? n)%N && (n <=? 57)%N then Some (n - 48)%N
  else if (97 <=? n)%N && (n <=? 102)%N then Some (n - 87)%N
  else if (65 <=? n)%N && (n <=? 70)%N then Some (n - 55)%N
  else None.

Definition byte_of_hex (hi lo : N) : Byte.byte :=
  default Byte.x00 (Byte.of_N (16 * hi + lo)).

Fixpoint hex_of_bytes (bs : list Byte.byte) : string :=
  match bs with
  | [] => EmptyString
  | b :: bs' =>
      let n := Byte.to_N b in
      String (hex_digit (n / 16)) (String (hex_digit (n mod 16)) (hex_of_bytes bs'))
  end.

(** Python's [str.isspace] on ASCII: the space and the characters 9 to 13. *)
Definition is_space (c : ascii) : bool :=
  let n := N_of_ascii c in
  (n =? 32)%N || ((9 <=? n)%N && (n <=? 13)%N).

(** [bytes.fromhex(s)]: [None] stands for its [ValueError]. *)
Fixpoint bytes_fromhex (s : string) : option (list Byte.byte) :=
  match s with
  | EmptyString => Some []
  | String c1 s1 =>
      if is_space c1 then bytes_fromhex s1
      else
        match s1 with
        | EmptyString => None
        | String c2 s2 =>
            hi ← hex_value c1; lo ← hex_value c2;
            bs ← bytes_fromhex s2; Some (byte_of_hex hi lo :: bs)
        end
  end.

Definition ObjectId_str (o : ObjectId) : string := hex_of_bytes (binary o).

(** [ObjectId(id_str)]: [None] stands for the library's [InvalidId]. *)
Definition ObjectId_new (id_str : string) : option ObjectId :=
  if (String.length id_str =? 24)%nat
  then mkObjectId <$> bytes_fromhex id_str
  else None.

(** ** Python values stored in documents *)

(** A finite [float]: the number [mantissa * 2 ^ exponent], together with
    the text Python prints for it.  The text is a function of the number
    in Python; it is carried as data because the shortest-digits printing
    algorithm is not part of this development. *)
Record PyFloat : Type := mkFloat {
  float_mantissa : Z;
  float_exponent : Z;
  float_repr : string
}.

Inductive value : Type :=
  | VNone
  | VBool (b : bool)
  | VInt (n : Z)
  | VFloat (f : PyFloat)
  | VStr (s : string)
  | VDate (year month day : Z)
  | VOid (o : ObjectId)
  | VList (items : list value).

(** A Python [dict] with string keys, and a BSON document alike. *)
Abbreviation Document := (gmap string value).

(** [d.get(k, dflt)] *)
Definition dict_get (d : Document) (k : string) (dflt : value) : value :=
  default dflt (d !! k).

(** [d[k]] *)
Definition dict_item (d : Document) (k : string) : result value :=
  match d !! k with
  | Some v => mret v
  | None => raise (KeyError k)
  end.

(** *** Numbers: [bool], [int] and [float] compare by value *)

Definition as_number (v : value) : option (Z * Z) :=
  match v with
  | VBool b => Some (Z.b2z b, 0)
  | VInt n => Some (n, 0)
  | VFloat f => Some (float_mantissa f, float_exponent f)
  | _ => None
  end.

Definition num_compare (x y : Z * Z) : comparison :=
  let e := Z.min x.2 y.2 in
  Z.compare (x.1 * 2 ^ (x.2 - e)) (y.1 * 2 ^ (y.2 - e)).

Definition is_Lt (c : comparison) : bool :=
  match c with Lt => true | _ => false end.

Definition is_Eq (c : comparison) : bool :=
  match c with Eq => true | _ => false end.

Definition triple_compare (a b : Z * Z * Z) : comparison :=
  match Z.compare a.1.1 b.1.1 with
  | Eq => match Z.compare a.1.2 b.1.2 with
          | Eq => Z.compare a.2 b.2
          | c => c
          end
  | c => c
  end.

Fixpoint bytes_compare (a b : list Byte.byte) : comparison :=
  match a, b with
  | [], [] => Eq
  | [], _ :: _ => Lt
  | _ :: _, [] => Gt
  | x :: a', y :: b' =>
      match N.compare (Byte.to_N x) (Byte.to_N y) with
      | Eq => bytes_compare a' b'
      | c => c
      end
  end.

(** *** [==] *)

Fixpoint py_eq (a b : value) : bool :=
  match a, b with
  | VNone, VNone => true
  | VStr s, VStr t => String.eqb s t
  | VDate y m d, VDate y' m' d' => is_Eq (triple_compare (y, m, d) (y', m', d'))
  | VOid o, VOid p => is_Eq (bytes_compare (binary o) (binary p))
  | VList l, VList k =>
      (fix items_eq (l k : list value) {struct l} : bool :=
         match l, k with
         | [], [] => true
         | x :: l', y :: k' => py_eq x y && items_eq l' k'
         | _, _ => false
         end) l k
  | _, _ =>
      match as_number a, as_number b with
      | Some x, Some y => is_Eq (num_compare x y)
      | _, _ => false
      end
  end.

(** *** [<]: defined between numbers, between strings, between dates,
    between identifiers and between lists; [TypeError] otherwise. *)

Fixpoint py_lt (a b : value) : result bool :=
  match a, b with
  | VStr s, VStr t => mret (String.ltb s t)
  | VDate y m d, VDate y' m' d' => mret (is_Lt (triple_compare (y, m, d) (y', m', d')))
  | VOid o, VOid p => mret (is_Lt (bytes_compare (binary o) (binary p)))
  | VList l, VList k =>
      (fix items_lt (l k : list value) {struct l} : result bool :=
         match l, k with
         | [], [] => mret false
         | [], _ :: _ => mret true
         | _ :: _, [] => mret false
         | x :: l', y :: k' => if py_eq x y then items_lt l' k' else py_lt x y
         end) l k
  | _, _ =>
      match as_number a, as_number b with
      | Some x, Some y => mret (is_Lt (num_compare x y))
      | _, _ => raise TypeError
      end
  end.

(** [a > b]: for the built-in types the reflected [b < a]. *)
Definition py_gt (a b : value) : result bool := py_lt b a.

(** *** [str] *)

Definition zero_pad (width : nat) (s : string) : string :=
  String.concat "" (replicate (width - String.length s)%nat "0") +:+ s.

Definition py_str (v : value) : result string :=
  match v with
  | VNone => mret "None"
  | VBool true => mret "True"
  | VBool false => mret "False"
  | VInt n => mret (pretty n)
  | VFloat f => mret (float_repr f)
  | VStr s => mret s
  | VDate y m d =>
      mret (zero_pad 4 (pretty y) +:+ "-" +:+ zero_pad 2 (pretty m) +:+ "-" +:+ zero_pad 2 (pretty d))
  | VOid o => mret (ObjectId_str o)
  | VList _ => raise NotRendered
  end.

(** *** [list.sort(key=...)] with two-component keys

    Python compares the key tuples with [<]: the first components that
    differ under [==] decide, by [<].  The sort is stable.  It is embedded
    as an insertion sort that only asks [<], as Python's does; a
    comparison that raises aborts it.  Where [<] orders the keys totally
    the result of a stable sort does not depend on the algorithm.  Where
    it does not, Python's sort raises at the first comparison it makes
    that does; on a list of two that is the one comparison of the second
    key with the first, here as there. *)

Definition tuple_lt (a b : value * value) : result bool :=
  if negb (py_eq a.1 b.1) then py_lt a.1 b.1
  else if negb (py_eq a.2 b.2) then py_lt a.2 b.2
  else mret false.

Fixpoint sort_insert {A : Type} (lt : A → A → result bool) (x : A) (l : list A)
  : result (list A) :=
  match l with
  | [] => mret [x]
  | y :: l' =>
      c ← lt y x;
      if c : bool then r ← sort_insert lt x l'; mret (y :: r)
      else mret (x :: y :: l')
  end.

Fixpoint sort_with {A : Type} (lt : A → A → result bool) (l : list A)
  : result (list A) :=
  match l with
  | [] => mret []
  | x :: l' => s ← sort_with lt l'; sort_insert lt x s
  end.

Definition list_sort {A : Type} (key : A → value * value) (l : list A)
  : result (list A) :=
  sort_with (λ a b, tuple_lt (key a) (key b)) l.

(** ** The document store

    [database.py], with the handle [db] and the helpers [create_document]
    and [get_documents], is missing from the sources.  The specification
    gives the contract the handlers rely on: [count], [find_one],
    [find_many] and [insert_one]/[insert_many] over named collections,
    every stored document carrying an identifier that the store generates,
    documents returned in store-native order. *)

(** Modelled from the spec: a stored document, independent of every
    other, with its store-generated unique identifier. *)
Record StoredDoc : Type := mkStored {
  doc_id : ObjectId;
  doc_fields : Document
}.

(** Modelled from the spec: the database behind the handle [db] of
    [database.py].  A collection is the list of its documents in
    store-native (insertion) order; [next_id] is the source of fresh
    identifiers. *)
Record Store : Type := mkStore {
  collections : gmap string (list StoredDoc);
  next_id : N
}.

(** The [width] low bytes of [n], most significant first. *)
Fixpoint be_bytes (width : nat) (n : N) : list Byte.byte :=
  match width with
  | O => []
  | S w => be_bytes w (n / 256)%N ++ [default Byte.x00 (Byte.of_N (n mod 256)%N)]
  end.

(** Modelled from the spec: the generation of a unique identifier, here
    the twelve bytes of a counter. *)
Definition generate_id (n : N) : ObjectId := mkObjectId (be_bytes 12 n).

(** Modelled from the spec: the dictionary a read hands out for a stored
    document, the identifier under [_id]. *)
Definition to_dict (sd : StoredDoc) : Document :=
  <["_id" := VOid (doc_id sd)]> (doc_fields sd).

(** Modelled from the spec: [db[name]]; a collection that was never
    written is empty. *)
Definition collection (db : Store) (name : string) : list StoredDoc :=
  default [] (collections db !! name).

(** Modelled from the spec: equality of a stored value with the value a
    filter gives.  Numbers are equal by value; a boolean is equal to a
    boolean only.  The contract speaks of a field that equals the given
    value; a store that lets a scalar match a member of an array field
    goes beyond it, and that is not modelled. *)
Fixpoint bson_eqb (a b : value) : bool :=
  match a, b with
  | VNone, VNone => true
  | VBool x, VBool y => Bool.eqb x y
  | VBool _, _ | _, VBool _ => false
  | VStr s, VStr t => String.eqb s t
  | VDate y m d, VDate y' m' d' => is_Eq (triple_compare (y, m, d) (y', m', d'))
  | VOid o, VOid p => is_Eq (bytes_compare (binary o) (binary p))
  | VList l, VList k =>
      (fix items_eqb (l k : list value) {struct l} : bool :=
         match l, k with
         | [], [] => true
         | x :: l', y :: k' => bson_eqb x y && items_eqb l' k'
         | _, _ => false
         end) l k
  | _, _ =>
      match as_number a, as_number b with
      | Some x, Some y => is_Eq (num_compare x y)
      | _, _ => false
      end
  end.

(** Modelled from the spec: a filter is a conjunction of field
    equalities; a document without the field does not match. *)
Definition field_matches (d : Document) (kv : string * value) : bool :=
  match d !! kv.1 with
  | Some v => bson_eqb v kv.2
  | None => false
  end.

Definition matches (flt : list (string * value)) (d : Document) : bool :=
  forallb (field_matches d) flt.

(** Modelled from the spec: [db[name].find(flt)], the spec's [find_many]
    without its limit: the matching documents in store-native order. *)
Definition find (db : Store) (name : string) (flt : list (string * value))
  : list Document :=
  List.filter (matches flt) (to_dict <$> collection db name).

(** Modelled from the spec: [db[name].find_one(flt)], the first matching
    document or [None]. *)
Definition find_one (db : Store) (name : string) (flt : list (string * value))
  : option Document :=
  head (find db name flt).

(** Modelled from the spec: [db[name].count_documents(flt)]. *)
Definition count_documents (db : Store) (name : string) (flt : list (string * value))
  : nat :=
  length (find db name flt).

(** Modelled from the spec: [db[name].insert_one(data)], which stores
    [data] last in the collection under a new identifier and returns
    that identifier. *)
Definition insert_one (db : Store) (name : string) (data : Document)
  : ObjectId * Store :=
  let new_id := generate_id (next_id db) in
  (new_id,
   {| collections := <[name := collection db name ++ [mkStored new_id data]]> (collections db);
      next_id := N.succ (next_id db) |}).

(** Modelled from the spec: [db[name].insert_many(docs)], one insertion
    after the other. *)
Definition insert_many (db : Store) (name : string) (docs : list Document) : Store :=
  foldl (λ s d, (insert_one s name d).2) db docs.

(** Modelled from the spec: [create_document(collection_name, data)] of
    [database.py], which persists the submission, given here as its
    [model_dump], and returns the generated identifier as a string. *)
Definition create_document (db : Store) (collection_name : string) (data : Document)
  : string * Store :=
  let r := insert_one db collection_name data in
  (ObjectId_str r.1, r.2).

(** Modelled from the spec: [get_documents(collection_name, filter_dict,
    limit)] of [database.py], the spec's [find_many]: the matching
    documents in store-native order, cut at [limit] when one is given. *)
Definition get_documents (db : Store) (collection_name : string)
    (filter_dict : list (string * value)) (limit : option nat) : list Document :=
  let docs := find db collection_name filter_dict in
  match limit with
  | Some n => take n docs
  | None => docs
  end.

(** ** schemas.py *)

Definition str_list (l : list string) : value := VList (VStr <$> l).

Module Trip.

Record t : Type := mk {
  title : string;
  trip_type : string;
  description : string;
  location : string;
  price_per_person : PyFloat;
  capacity : Z;
  duration_hours : PyFloat;
  highlights : list string;
  includes : list string;
  images : list string;
  is_active : bool
}.

(** [Trip(...)]: [ge=0] on the price, [ge=1] on the capacity, [gt=0] on
    the duration; [is_active] defaults to [True]. *)
Definition init (title trip_type description location : string)
    (price_per_person : PyFloat) (capacity : Z) (duration_hours : PyFloat)
    (highlights includes images : list string) (is_active : option bool)
  : result t :=
  if negb (0 <=? float_mantissa price_per_person) then raise PydanticValidationError
  else if negb (1 <=? capacity) then raise PydanticValidationError
  else if negb (0 <? float_mantissa duration_hours) then raise PydanticValidationError
  else mret (mk title trip_type description location price_per_person
               capacity duration_hours highlights includes images
               (default true is_active)).

Definition model_dump (x : t) : Document :=
  list_to_map
    [("title", VStr (title x));
     ("trip_type", VStr (trip_type x));
     ("description", VStr (description x));
     ("location", VStr (location x));
     ("price_per_person", VFloat (price_per_person x));
     ("capacity", VInt (capacity x));
     ("duration_hours", VFloat (duration_hours x));
     ("highlights", str_list (highlights x));
     ("includes", str_list (includes x));
     ("images", str_list (images x));
     ("is_active", VBool (is_active x))].

End Trip.

Module Booking.

Record t : Type := mk {
  trip_type : string;
  name : string;
  email : string;
  phone : string;
  date : Z * Z * Z;
  people_count : Z;
  notes : option string;
  status : string
}.

(** [Booking(...)]: [ge=1] on [people_count]; [notes] defaults to
    [None] and [status] to ["pending"].  [email] is an [EmailStr]: its
    syntax has been checked by pydantic before the value gets here. *)
Definition init (trip_type name email phone : string) (date : Z * Z * Z)
    (people_count : Z) (notes : option string) (status : option string)
  : result t :=
  if negb (1 <=? people_count) then raise PydanticValidationError
  else mret (mk trip_type name email phone date people_count notes
               (default "pending" status)).

Definition model_dump (x : t) : Document :=
  list_to_map
    [("trip_type", VStr (trip_type x));
     ("name", VStr (name x));
     ("email", VStr (email x));
     ("phone", VStr (phone x));
     ("date", VDate (date x).1.1 (date x).1.2 (date x).2);
     ("people_count", VInt (people_count x));
     ("notes", from_option VStr VNone (notes x));
     ("status", VStr (status x))].

End Booking.

(** ** Handlers: exceptions over a database

    A handler runs against the database and either returns or raises;
    what it wrote before raising stays written. *)

Definition handler (A : Type) : Type := Store → result A * Store.

#[global] Instance handler_ret : MRet handler := λ A x db, (inr x, db).

#[global] Instance handler_bind : MBind handler :=
  λ A B f m db,
    match m db with
    | (inl e, db') => (inl e, db')
    | (inr x, db') => f x db'
    end.

(** A computation that does not touch the database. *)
Definition pure {A : Type} (r : result A) : handler A := λ db, (r, db).

(** A read of the database. *)
Definition query {A : Type} (q : Store → A) : handler A := λ db, (inr (q db), db).

(** A write to the database. *)
Definition update {A : Type} (w : Store → A * Store) : handler A :=
  λ db, let r := w db in (inr r.1, r.2).

(** ** main.py *)

(** [not trip], for the [dict | None] that [find_one] returns *)
Definition py_not (o : option Document) : bool :=
  match o with
  | None => true
  | Some d => bool_decide (size d = 0%nat)
  end.

Definition oid (id_str : string) : result ObjectId :=
  match ObjectId_new id_str with
  | Some o => mret o
  | None => raise (HTTPException 400 "Invalid id")
  end.

Definition seed_trips : result (list Document) :=
  t1 ← Trip.init
         "Dimaniyat Island Day Trip"
         "dimaniyat"
         "Explore the pristine Dimaniyat Islands aboard our 11.3m Looker 370 glass-bottom boat. Snorkel vibrant reefs, spot sea turtles, and enjoy a beach stop."
         "Dimaniyat Islands, Oman"
         (mkFloat 35 0 "35.0")
         20
         (mkFloat 5 0 "5.0")
         ["Snorkeling coral reefs";
          "Sea turtles and marine life";
          "Beachtime on a protected island";
          "Glass-bottom reef viewing"]
         ["Captain & crew"; "Snorkel gear"; "Water & soft drinks"]
         ["/images/dimaniyat-1.jpg";
          "/images/dimaniyat-2.jpg";
          "/images/looker370.jpg"]
         None;
  t2 ← Trip.init
         "Muscat Sunset Cruise"
         "sunset"
         "A golden-hour cruise along Muscat’s coastline aboard our Looker 370. Take in Al Alam Palace, Muttrah Corniche, and dramatic sea cliffs as the sun sets."
         "Muscat Coastline, Oman"
         (mkFloat 20 0 "20.0")
         10
         (mkFloat 2 0 "2.0")
         ["Golden hour views";
          "Iconic Muscat landmarks";
          "Relaxed vibes on calm waters";
          "Great photo opportunities"]
         ["Captain & crew"; "Water & soft drinks"]
         ["/images/sunset-1.jpg";
          "/images/sunset-2.jpg";
          "/images/looker370.jpg"]
         None;
  mret [Trip.model_dump t1; Trip.model_dump t2].

Definition faq_dict (question answer category : string) (order : Z) : Document :=
  list_to_map
    [("question", VStr question); ("answer", VStr answer);
     ("category", VStr category); ("order", VInt order)].

Definition seed_faqs : list Document :=
  [faq_dict "Where do trips depart from?"
     "Muscat, Oman. Exact marina details shared upon booking." "general" 1;
   faq_dict "How many guests can join?"
     "Up to 18-20 for Dimaniyat and 8-10 for sunset trips." "capacity" 2;
   faq_dict "What should I bring?"
     "Sunscreen, hat, towel, and swimwear. We provide water, soft drinks, and snorkel gear for day trips."
     "prep" 3;
   faq_dict "Is the glass bottom safe?"
     "Yes. The Looker 370 is purpose-built with reinforced glass for reef viewing."
     "safety" 4].

Definition seed : handler Document :=
  (* Trips *)
  n ← query (λ db, count_documents db "trip" []);
  _ ← (if (n =? 0)%nat
       then docs ← pure seed_trips;
            update (λ db, ((), insert_many db "trip" docs))
       else mret ());
  (* FAQs *)
  n ← query (λ db, count_documents db "faq" []);
  _ ← (if (n =? 0)%nat
       then update (λ db, ((), insert_many db "faq" seed_faqs))
       else mret ());
  mret (list_to_map [("status", VStr "ok")]).

(** [t["_id"] = str(t["_id"])  # jsonify] *)
Definition jsonify (t : Document) : result Document :=
  v ← dict_item t "_id";
  s ← py_str v;
  mret (<["_id" := VStr s]> t).

Definition get_trips : handler (list Document) :=
  trips ← query (λ db, get_documents db "trip" [] None);
  pure (mapM jsonify trips).

(** [lambda x: (x.get("order", 0), x.get("question", ""))] *)
Definition faq_key (x : Document) : value * value :=
  (dict_get x "order" (VInt 0), dict_get x "question" (VStr "")).

Definition get_faqs : handler (list Document) :=
  faqs ← query (λ db, get_documents db "faq" [] (Some 100%nat));
  faqs ← pure (mapM jsonify faqs);
  (* sort by order then question *)
  pure (list_sort faq_key faqs).

Definition get_reviews : handler (list Document) :=
  reviews ← query (λ db, get_documents db "review" [] (Some 50%nat));
  pure (mapM jsonify reviews).

Definition create_booking (payload : Booking.t) : handler Document :=
  (* Validate capacity against trips *)
  trip ← query (λ db, find_one db "trip"
                        [("trip_type", VStr (Booking.trip_type payload));
                         ("is_active", VBool true)]);
  if py_not trip then pure (raise (HTTPException 404 "Trip not found"))
  else
    let trip := default ∅ trip in
    exceeds ← pure (py_gt (VInt (Booking.people_count payload))
                      (dict_get trip "capacity" (VInt 0)));
    if exceeds : bool
    then shown ← pure (py_str (dict_get trip "capacity" VNone));
         pure (raise (HTTPException 400
                        ("Maximum capacity is " +:+ shown +:+ " for this trip")))
    else
      booking_id ← update (λ db, create_document db "booking"
                                   (Booking.model_dump payload));
      mret (list_to_map [("status", VStr "received"); ("id", VStr booking_id)]).

(** ** Vocabulary of the statements *)

(** The filter of the lookup in [create_booking]. *)
Definition booking_filter (payload : Booking.t) : list (string * value) :=
  [("trip_type", VStr (Booking.trip_type payload)); ("is_active", VBool true)].


(** ** Stores and submissions used as examples *)

Definition empty_store : Store := mkStore ∅ 0.

(** The store after one run of [seed] on the empty one. *)
Definition seeded_store : Store := (seed empty_store).2.

Definition sample_booking (trip_type : string) (people_count : Z) : Booking.t :=
  Booking.mk trip_type "Asma" "asma@example.com" "+968 9000 0000" (2026, 1, 15)
    people_count None "pending".

(** One active sunset trip whose document has no [capacity]. *)
Definition store_without_capacity : Store :=
  mkStore
    {[ "trip" := [mkStored (generate_id 0)
                    (list_to_map [("trip_type", VStr "sunset");
                                  ("is_active", VBool true)])] ]}
    1.

(** One sunset trip whose document has no [is_active]. *)
Definition store_without_is_active : Store :=
  mkStore
    {[ "trip" := [mkStored (generate_id 0)
                    (list_to_map [("trip_type", VStr "sunset");
                                  ("capacity", VInt 10)])] ]}
    1.

(** ** The order of the FAQ listing, on typed keys *)

(** The sort key of a document whose [order], when present, is an
    integer and whose [question], when present, is a string. *)
Definition faq_order (d : Document) : Z :=
  match d !! "order" with
  | Some (VInt n) => n
  | _ => 0
  end.

Definition faq_question (d : Document) : string :=
  match d !! "question" with
  | Some (VStr s) => s
  | _ => ""
  end.

Definition faq_typed (d : Document) : bool :=
  match d !! "order" with
  | None | Some (VInt _) => true
  | _ => false
  end
  &&
  match d !! "question" with
  | None | Some (VStr _) => true
  | _ => false
  end.

Definition faq_sort_key (d : Document) : Z * string :=
  (faq_order d, faq_question d).

Definition key_compare (k1 k2 : Z * string) : comparison :=
  match Z.compare k1.1 k2.1 with
  | Eq => String.compare k1.2 k2.2
  | c => c
  end.

Definition faq_compare (a b : Document) : comparison :=
  key_compare (faq_sort_key a) (faq_sort_key b).

Definition faq_ltb (a b : Document) : bool := is_Lt (faq_compare a b).

(** [order] first, [question] to break ties. *)
Definition faq_le (a b : Document) : Prop :=
  faq_order a < faq_order b
  ∨ (faq_order a = faq_order b
     ∧ String.leb (faq_question a) (faq_question b) = true).

Definition same_key (k : Z * string) (d : Document) : bool :=
  (faq_order d =? k.1) && String.eqb (faq_question d) k.2.

(** A stored document as the listings return it: the identifier replaced
    by its rendering. *)
Definition rendered (sd : StoredDoc) : Document :=
  <["_id" := VStr (ObjectId_str (doc_id sd))]> (to_dict sd).

(** The reference the embedded sort is compared with: insertion sort
    driven by a boolean order. *)
Fixpoint insert_by {A : Type} (ltb : A → A → bool) (x : A) (l : list A) : list A :=
  match l with
  | [] => [x]
  | y :: l' => if ltb y x then y :: insert_by ltb x l' else x :: y :: l'
  end.

Fixpoint stable_sort {A : Type} (ltb : A → A → bool) (l : list A) : list A :=
  match l with
  | [] => []
  | x :: l' => insert_by ltb x (stable_sort ltb l')
  end.

(** Two FAQ documents whose [order] values do not compare: a string and
    an integer. *)
Definition store_with_mixed_orders : Store :=
  mkStore
    {[ "faq" := [mkStored (generate_id 0) (list_to_map [("order", VStr "x")]);
                 mkStored (generate_id 1) (list_to_map [("order", VInt 1)])] ]}
    2.

(** The FAQ collection with 101 documents, stored with [order] counting
    down from 101 to 1. *)
Definition countdown_faqs : list StoredDoc :=
  (λ i : nat, mkStored (generate_id (N.of_nat i))
                (list_to_map [("order", VInt (101 - Z.of_nat i))]))
    <$> seq 0 101.

Definition store_with_101_faqs : Store :=
  mkStore {[ "faq" := countdown_faqs ]} 101.

(** The documents [insert_many] stores for [docs], the counter at [n]. *)
Fixpoint stored_from (n : N) (docs : list Document) : list StoredDoc :=
  match docs with
  | [] => []
  | d :: docs' => mkStored (generate_id n) d :: stored_from (N.succ n) docs'
  end.

(** The two dumped trips of [seed]. *)
Definition seed_trip_docs : list Document :=
  match seed_trips with
  | inr docs => docs
  | inl _ => []
  end.

Definition status_ok : Document := list_to_map [("status", VStr "ok")].

(** FAQ documents with orders 3, 1, 1, 2, the two of order 1 stored as
    "b" before "a", and a last one with neither field. *)
Definition store_with_five_faqs : Store :=
  mkStore
    {[ "faq" := stored_from 0
                  [faq_dict "c" "" "general" 3;
                   faq_dict "b" "" "general" 1;
                   faq_dict "a" "" "general" 1;
                   faq_dict "d" "" "general" 2;
                   list_to_map [("answer", VStr "")]] ]}
    5.

(** ** schemas.py, the remaining models *)

Module Review.

Record t : Type := mk {
  name : string;
  rating : Z;
  comment : string;
  trip_type : option string
}.

(** [Review(...)]: [ge=1] and [le=5] on [rating]; [trip_type] defaults
    to [None]. *)
Definition init (name : string) (rating : Z) (comment : string)
    (trip_type : option string) : result t :=
  if negb (1 <=? rating) then raise PydanticValidationError
  else if negb (rating <=? 5) then raise PydanticValidationError
  else mret (mk name rating comment trip_type).

Definition model_dump (x : t) : Document :=
  list_to_map
    [("name", VStr (name x));
     ("rating", VInt (rating x));
     ("comment", VStr (comment x));
     ("trip_type", from_option VStr VNone (trip_type x))].

End Review.

Module FAQ.

Record t : Type := mk {
  question : string;
  answer : string;
  category : option string;
  order : Z
}.

(** [FAQ(...)]: [category] defaults to ["general"] and may be given as
    [None]; [order] defaults to 0. *)
Definition init (question answer : string) (category : option (option string))
    (order : option Z) : t :=
  mk question answer (default (Some "general") category) (default 0 order).

Definition model_dump (x : t) : Document :=
  list_to_map
    [("question", VStr (question x));
     ("answer", VStr (answer x));
     ("category", from_option VStr VNone (category x));
     ("order", VInt (order x))].

End FAQ.

Module Inquiry.

Record t : Type := mk {
  name : string;
  email : string;
  subject : string;
  message : string
}.

Definition model_dump (x : t) : Document :=
  list_to_map
    [("name", VStr (name x));
     ("email", VStr (email x));
     ("subject", VStr (subject x));
     ("message", VStr (message x))].

End Inquiry.

(** ** main.py, the remaining handlers *)

Definition root : Document :=
  list_to_map [("service", VStr "Gulf Global Tours API"); ("status", VStr "ok")].

Definition create_inquiry (payload : Inquiry.t) : handler Document :=
  inquiry_id ← update (λ db, create_document db "inquiry"
                               (Inquiry.model_dump payload));
  mret (list_to_map [("status", VStr "received"); ("id", VStr inquiry_id)]).

Definition add_review (payload : Review.t) : handler Document :=
  review_id ← update (λ db, create_document db "review"
                              (Review.model_dump payload));
  mret (list_to_map [("status", VStr "received"); ("id", VStr review_id)]).

(** *** The diagnostic of [/test]

    [test_database] asks the handle [db] for its name and for the names
    of its collections, and the environment for [DATABASE_URL].  What
    these answer is the input here: [db] is [None] or a [Handle]; asking
    a handle for its [name] raises (the message is given), or finds no
    such attribute, or returns the name; [list_collection_names()]
    raises or returns the names. *)

Record Handle : Type := mkHandle {
  handle_name : string + option string;
  handle_collection_names : string + list string
}.

(** A byte that continues a character of a UTF-8 text. *)
Definition is_continuation (c : ascii) : bool :=
  let n := N_of_ascii c in (128 <=? n)%N && (n <=? 191)%N.

(** [s[:n]]: the first [n] characters of [s].  Strings are UTF-8 here, so
    the bytes that continue a character go with it. *)
Fixpoint str_slice (n : nat) (s : string) : string :=
  match s with
  | EmptyString => EmptyString
  | String c s' =>
      if is_continuation c then String c (str_slice n s')
      else match n with
           | O => EmptyString
           | S n' => String c (str_slice n' s')
           end
  end.

(** [len(s)], in characters *)
Fixpoint str_len (s : string) : nat :=
  match s with
  | EmptyString => O
  | String c s' => if is_continuation c then str_len s' else S (str_len s')
  end.

(** The truth value of [os.getenv("DATABASE_URL")]: unset and empty are
    both false. *)
Definition env_truthy (v : option string) : bool :=
  match v with
  | None | Some EmptyString => false
  | Some (String _ _) => true
  end.

Definition test_database (db : option Handle) (DATABASE_URL : option string)
  : Document :=
  let response : Document :=
    list_to_map
      [("backend", VStr "✅ Running");
       ("database", VStr "❌ Not Available");
       ("database_url", VNone);
       ("database_name", VNone);
       ("connection_status", VStr "Not Connected");
       ("collections", VList [])] in
  match db with
  | None => response
  | Some h =>
      let response := <["database" := VStr "✅ Available"]> response in
      let response :=
        <["database_url" :=
            VStr (if env_truthy DATABASE_URL then "✅ Set" else "❌ Not Set")]>
          response in
      match handle_name h with
      | inl e =>
          (* the outer [except] *)
          <["database" := VStr ("❌ Error: " +:+ str_slice 50 e)]> response
      | inr name =>
          let response :=
            <["database_name" := VStr (default "✅ Connected" name)]> response in
          let response := <["connection_status" := VStr "Connected"]> response in
          match handle_collection_names h with
          | inr collections =>
              let response :=
                <["collections" := str_list (take 10 collections)]> response in
              <["database" := VStr "✅ Connected & Working"]> response
          | inl e =>
              (* the inner [except] *)
              <["database" :=
                  VStr ("⚠️  Connected but Error: " +:+ str_slice 50 e)]>
                response
          end
      end
  end.

(** ** More stores used as examples *)

(** A sunset trip whose [capacity] was stored as text. *)
Definition store_with_text_capacity : Store :=
  mkStore
    {[ "trip" := [mkStored (generate_id 0)
                    (list_to_map [("trip_type", VStr "sunset");
                                  ("is_active", VBool true);
                                  ("capacity", VStr "ten")])] ]}
    1.

(** Two active sunset trips, of capacity 4 and then 10. *)
Definition store_with_two_sunsets : Store :=
  mkStore
    {[ "trip" := stored_from 0
                   [list_to_map [("trip_type", VStr "sunset");
                                 ("is_active", VBool true);
                                 ("capacity", VInt 4)];
                    list_to_map [("trip_type", VStr "sunset");
                                 ("is_active", VBool true);
                                 ("capacity", VInt 10)]] ]}
    2.

Definition sample_review (rating : Z) : Review.t :=
  Review.mk "Asma" rating "Calm sea, kind crew." (Some "sunset").

(** A store with [n] reviews. *)
Definition store_with_reviews (n : nat) : Store :=
  mkStore
    {[ "review" := stored_from 0 (replicate n (Review.model_dump (sample_review 5))) ]}
    (N.of_nat n).

(** Two FAQ documents dumped from the schema, the second with every
    default. *)
Definition store_with_schema_faqs : Store :=
  mkStore
    {[ "faq" := stored_from 0
                  [FAQ.model_dump (FAQ.init "Do you sail in winter?" "Yes."
                                     (Some None) (Some 2));
                   FAQ.model_dump (FAQ.init "Is lunch served?" "On day trips."
                                     None None)] ]}
    2.

(** The five FAQ documents of [store_with_five_faqs], stored in the
    opposite order. *)
Definition store_with_five_faqs_reversed : Store :=
  mkStore {[ "faq" := rev (collection store_with_five_faqs "faq") ]} 5.

(** A handle whose collections cannot be listed. *)
Definition handle_that_cannot_list : Handle :=
  mkHandle (inr (Some "tours"))
    (inl "localhost:27017: [Errno 111] Connection refused, Timeout: 30s, Topology Description: unknown").

(** A handle with twelve collections. *)
Definition handle_with_twelve : Handle :=
  mkHandle (inr (Some "tours"))
    (inr ["c01"; "c02"; "c03"; "c04"; "c05"; "c06";
          "c07"; "c08"; "c09"; "c10"; "c11"; "c12"]).

(** * Properties *)

(** ** Running a handler step by step *)

Lemma run_query {A B : Type} (q : Store → A) (k : A → handler B) (db : Store) :
  (query q ≫= k) db = k (q db) db.
Proof. reflexivity. Qed.

Lemma run_return {A B : Type} (x : A) (k : A → handler B) (db : Store) :
  (pure (inr x) ≫= k) db = k x db.
Proof. reflexivity. Qed.

Lemma run_raise {A B : Type} (e : exn) (k : A → handler B) (db : Store) :
  (pure (inl e) ≫= k) db = (inl e, db).
Proof. reflexivity. Qed.

Lemma run_update {A B : Type} (w : Store → A * Store) (k : A → handler B) (db : Store) :
  (update w ≫= k) db = k (w db).1 (w db).2.
Proof. reflexivity. Qed.

(** ** Comparisons of integers *)

Lemma num_compare_int (a b : Z) : num_compare (a, 0) (b, 0) = Z.compare a b.
Proof.
  unfold num_compare. simpl. rewrite Z.min_id, Z.sub_diag. simpl.
  now rewrite !Z.mul_1_r.
Qed.

Lemma py_lt_int (a b : Z) : py_lt (VInt a) (VInt b) = inr (a <? b).
Proof.
  simpl. rewrite num_compare_int. unfold Z.ltb. now destruct (a ?= b)%Z.
Qed.

Lemma py_eq_int (a b : Z) : py_eq (VInt a) (VInt b) = (a =? b).
Proof.
  simpl. rewrite num_compare_int, Z.eqb_compare. now destruct (a ?= b)%Z.
Qed.

(** ** The lookup of [create_booking] *)

Lemma bson_eqb_str (v : value) (s : string) :
  bson_eqb v (VStr s) = true ↔ v = VStr s.
Proof.
  destruct v; simpl; try (split; intros; discriminate).
  rewrite String.eqb_eq. split; congruence.
Qed.

Lemma bson_eqb_true (v : value) :
  bson_eqb v (VBool true) = true ↔ v = VBool true.
Proof.
  destruct v as [| [] | | | | | |]; simpl; split; congruence.
Qed.

Lemma matches_booking_filter (payload : Booking.t) (d : Document) :
  matches (booking_filter payload) d = true ↔
  d !! "trip_type" = Some (VStr (Booking.trip_type payload)) ∧
  d !! "is_active" = Some (VBool true).
Proof.
  unfold matches, booking_filter, field_matches. simpl.
  rewrite !andb_true_iff.
  destruct (d !! "trip_type") as [v |], (d !! "is_active") as [w |];
    rewrite ?bson_eqb_str, ?bson_eqb_true;
    split; intros H; destruct_and?; repeat split; congruence.
Qed.

Lemma find_one_Some (db : Store) (name : string) (flt : list (string * value))
    (d : Document) :
  find_one db name flt = Some d →
  matches flt d = true ∧ ∃ sd, sd ∈ collection db name ∧ d = to_dict sd.
Proof.
  unfold find_one, find. intros H.
  assert (Hin : In d (List.filter (matches flt) (to_dict <$> collection db name))).
  { destruct (List.filter _ _); simpl in H; [discriminate |].
    injection H as ->. now left. }
  apply filter_In in Hin as [Hin Hm]. split; [exact Hm |].
  apply list_elem_of_In, list_elem_of_fmap in Hin as (sd & -> & Hsd). eauto.
Qed.

Lemma find_one_None (db : Store) (name : string) (flt : list (string * value)) :
  (∀ sd, sd ∈ collection db name → matches flt (to_dict sd) = false) →
  find_one db name flt = None.
Proof.
  unfold find_one, find. intros H.
  induction (collection db name) as [| sd l IH]; [reflexivity |].
  simpl. rewrite H by left. apply IH. intros sd' Hsd'. apply H. now right.
Qed.

Lemma found_has_id (db : Store) (name : string) (flt : list (string * value))
    (d : Document) :
  find_one db name flt = Some d → py_not (Some d) = false.
Proof.
  intros (_ & sd & _ & ->)%find_one_Some. simpl.
  apply bool_decide_eq_false. apply map_size_ne_0_lookup. exists "_id".
  unfold to_dict. rewrite lookup_insert_eq. eauto.
Qed.

(** Closed equations between terms that evaluate to the same value. *)
Ltac by_computation :=
  lazymatch goal with
  | |- ?a = ?b => vm_cast_no_check (@eq_refl _ b)
  end.

Ltac run_lookup Hfind :=
  unfold create_booking; rewrite run_query;
  match type of Hfind with
  | find_one ?db _ (booking_filter ?p) = _ =>
      change (find_one db "trip" _) with (find_one db "trip" (booking_filter p))
  end;
  rewrite Hfind, (found_has_id _ _ _ _ Hfind); cbn [default from_option id].

(** ** Booking creation *)

(** C1: whenever the lookup finds a trip whose capacity is the integer [C]
    and the submission asks for more than [C] people, [create_booking]
    raises the 400 error whose detail is "Maximum capacity is C for this
    trip", and the database is left as it was. *)
Theorem create_booking_over_capacity
    (payload : Booking.t) (db : Store) (trip : Document) (C : Z) :
  find_one db "trip" (booking_filter payload) = Some trip →
  trip !! "capacity" = Some (VInt C) →
  C < Booking.people_count payload →
  create_booking payload db =
    (inl (HTTPException 400 ("Maximum capacity is " +:+ pretty C +:+ " for this trip")),
     db).
Proof.
  intros Hfind Hcap Hlt. run_lookup Hfind.
  unfold dict_get, py_gt. rewrite Hcap. cbn [default from_option id].
  rewrite py_lt_int. apply Z.ltb_lt in Hlt. rewrite Hlt.
  reflexivity.
Qed.

Lemma create_booking_over_capacity_witness :
  create_booking (sample_booking "sunset" 11) seeded_store =
    (inl (HTTPException 400 "Maximum capacity is 10 for this trip"), seeded_store).
Proof.
  refine (eq_trans
            (create_booking_over_capacity (sample_booking "sunset" 11) seeded_store
               (default ∅ (find_one seeded_store "trip"
                             (booking_filter (sample_booking "sunset" 11))))
               10 _ _ _) _).
  - by_computation.
  - by_computation.
  - reflexivity.
  - by_computation.
Defined.

Lemma find_one_booking_None (payload : Booking.t) (db : Store) :
  (∀ sd, sd ∈ collection db "trip" →
     ¬ (to_dict sd !! "trip_type" = Some (VStr (Booking.trip_type payload)) ∧
        to_dict sd !! "is_active" = Some (VBool true))) →
  find_one db "trip" (booking_filter payload) = None.
Proof.
  intros Hnone. apply find_one_None. intros sd Hsd.
  apply not_true_is_false. rewrite matches_booking_filter. now apply Hnone.
Qed.

Lemma create_booking_lookup_None (payload : Booking.t) (db : Store) :
  find_one db "trip" (booking_filter payload) = None →
  create_booking payload db = (inl (HTTPException 404 "Trip not found"), db).
Proof.
  intros Hfind. unfold create_booking. rewrite run_query.
  change (find_one db "trip" _) with (find_one db "trip" (booking_filter payload)).
  now rewrite Hfind.
Qed.

(** C2: when no document of the trip collection has both the submitted
    [trip_type] and [is_active] true, [create_booking] raises the 404
    error "Trip not found" and leaves the database as it was, whatever
    the submission's [people_count]. *)
Theorem create_booking_trip_not_found (payload : Booking.t) (db : Store) :
  (∀ sd, sd ∈ collection db "trip" →
     ¬ (to_dict sd !! "trip_type" = Some (VStr (Booking.trip_type payload)) ∧
        to_dict sd !! "is_active" = Some (VBool true))) →
  create_booking payload db = (inl (HTTPException 404 "Trip not found"), db).
Proof.
  intros Hnone. now apply create_booking_lookup_None, find_one_booking_None.
Qed.

Lemma none_matches_check (payload : Booking.t) (db : Store) :
  forallb (λ sd, negb (matches (booking_filter payload) (to_dict sd)))
    (collection db "trip") = true →
  ∀ sd, sd ∈ collection db "trip" →
    ¬ (to_dict sd !! "trip_type" = Some (VStr (Booking.trip_type payload)) ∧
       to_dict sd !! "is_active" = Some (VBool true)).
Proof.
  intros Hall sd Hsd Hboth. rewrite forallb_forall in Hall.
  apply list_elem_of_In, Hall, negb_true_iff in Hsd.
  apply matches_booking_filter in Hboth. congruence.
Qed.

Lemma create_booking_trip_not_found_witness :
  create_booking (sample_booking "kayak" 3) seeded_store =
    (inl (HTTPException 404 "Trip not found"), seeded_store).
Proof.
  apply (create_booking_trip_not_found (sample_booking "kayak" 3) seeded_store).
  apply none_matches_check. by_computation.
Defined.

(** C3: when the lookup finds a trip whose capacity is the integer [C]
    and the submission asks for at most [C] people, [create_booking]
    appends the dumped submission to the booking collection under a newly
    generated identifier, changes nothing else but the identifier
    counter, and returns that identifier, rendered, with the status
    "received"; the stored status is the submission's, which is "pending"
    for a submission built without one. *)
Theorem create_booking_accepts
    (payload : Booking.t) (db : Store) (trip : Document) (C : Z) :
  find_one db "trip" (booking_filter payload) = Some trip →
  trip !! "capacity" = Some (VInt C) →
  Booking.people_count payload ≤ C →
  let new_id := generate_id (next_id db) in
  create_booking payload db =
    (inr (list_to_map [("status", VStr "received");
                       ("id", VStr (ObjectId_str new_id))]),
     {| collections :=
          <["booking" := collection db "booking"
                           ++ [mkStored new_id (Booking.model_dump payload)]]>
            (collections db);
        next_id := N.succ (next_id db) |})
  ∧ Booking.model_dump payload !! "status" = Some (VStr (Booking.status payload))
  ∧ (∀ trip_type name email phone date people_count notes,
       Booking.init trip_type name email phone date people_count notes None
         = inr payload →
       Booking.status payload = "pending").
Proof.
  intros Hfind Hcap Hle new_id. split; [| split].
  - run_lookup Hfind.
    unfold dict_get, py_gt. rewrite Hcap. cbn [default from_option id].
    rewrite py_lt_int. apply Z.ltb_ge in Hle. rewrite Hle.
    reflexivity.
  - reflexivity.
  - intros tt nm em ph dt pc nt. unfold Booking.init.
    destruct (negb (1 <=? pc)); [discriminate |].
    intros [= <-]. reflexivity.
Qed.

Lemma create_booking_accepts_witness :
  create_booking (sample_booking "sunset" 10) seeded_store =
    (inr (list_to_map [("status", VStr "received");
                       ("id", VStr "000000000000000000000006")]),
     (create_booking (sample_booking "sunset" 10) seeded_store).2)
  ∧ doc_fields
      <$> collection (create_booking (sample_booking "sunset" 10) seeded_store).2
            "booking"
    = [Booking.model_dump (sample_booking "sunset" 10)].
Proof.
  split.
  - refine (eq_trans
              (proj1 (create_booking_accepts (sample_booking "sunset" 10)
                        seeded_store
                        (default ∅ (find_one seeded_store "trip"
                                      (booking_filter (sample_booking "sunset" 10))))
                        10 _ _ _)) _).
    + by_computation.
    + by_computation.
    + discriminate.
    + by_computation.
  - by_computation.
Defined.

Lemma create_booking_missing_capacity
    (payload : Booking.t) (db : Store) (trip : Document) :
  find_one db "trip" (booking_filter payload) = Some trip →
  trip !! "capacity" = None →
  1 ≤ Booking.people_count payload →
  create_booking payload db =
    (inl (HTTPException 400 "Maximum capacity is None for this trip"), db).
Proof.
  intros Hfind Hcap Hle. run_lookup Hfind.
  unfold dict_get, py_gt. rewrite Hcap. cbn [default from_option id].
  rewrite py_lt_int.
  assert ((0 <? Booking.people_count payload) = true) as -> by (apply Z.ltb_lt; lia).
  reflexivity.
Qed.

(** C4: on a store whose only active sunset trip has no [capacity], a
    booking for one person is compared against 0 and refused without a
    write, but the detail of the 400 error reads "Maximum capacity is
    None for this trip": the message is built from [trip.get('capacity')],
    without the default the comparison uses. *)
Theorem create_booking_missing_capacity_message :
  create_booking (sample_booking "sunset" 1) store_without_capacity =
    (inl (HTTPException 400 "Maximum capacity is None for this trip"),
     store_without_capacity)
  ∧ create_booking (sample_booking "sunset" 1) store_without_capacity ≠
    (inl (HTTPException 400 "Maximum capacity is 0 for this trip"),
     store_without_capacity).
Proof.
  assert (H : create_booking (sample_booking "sunset" 1) store_without_capacity =
    (inl (HTTPException 400 "Maximum capacity is None for this trip"),
     store_without_capacity)).
  { apply (create_booking_missing_capacity _ _
             (default ∅ (find_one store_without_capacity "trip"
                           (booking_filter (sample_booking "sunset" 1))))).
    - by_computation.
    - by_computation.
    - discriminate. }
  split; [exact H |]. rewrite H. intros [= ].
Qed.

(** C9: the lookup of [create_booking] matches a document only when its
    [is_active] is stored as the boolean true: a document without the
    field, or with any other value in it, does not match, and when no
    document of the submitted trip type stores true the booking ends in
    the 404 error without a write; yet a [Trip] built without
    [is_active] dumps it as true. *)
Theorem booking_lookup_needs_stored_true (payload : Booking.t) (db : Store) :
  (∀ d : Document,
     d !! "is_active" ≠ Some (VBool true) →
     matches (booking_filter payload) d = false)
  ∧ ((∀ sd, sd ∈ collection db "trip" →
        to_dict sd !! "trip_type" = Some (VStr (Booking.trip_type payload)) →
        to_dict sd !! "is_active" ≠ Some (VBool true)) →
     create_booking payload db = (inl (HTTPException 404 "Trip not found"), db))
  ∧ (∀ title trip_type description location price capacity duration
       highlights includes images t,
       Trip.init title trip_type description location price capacity duration
         highlights includes images None = inr t →
       Trip.model_dump t !! "is_active" = Some (VBool true)).
Proof.
  split; [| split].
  - intros d Hd. apply not_true_is_false.
    rewrite matches_booking_filter. tauto.
  - intros Hnone. apply create_booking_lookup_None, find_one_booking_None.
    intros sd Hsd [Htype Hactive]. now apply (Hnone sd).
  - intros ti tt de lo pr ca du hi inc im t. unfold Trip.init.
    repeat (match goal with |- context [if ?c then _ else _] => destruct c end;
            [discriminate |]).
    intros [= <-]. reflexivity.
Qed.

Lemma booking_lookup_needs_stored_true_witness :
  create_booking (sample_booking "sunset" 2) store_without_is_active =
    (inl (HTTPException 404 "Trip not found"), store_without_is_active).
Proof.
  apply (booking_lookup_needs_stored_true (sample_booking "sunset" 2)
           store_without_is_active).
  intros sd Hsd Htype Hactive.
  apply (none_matches_check (sample_booking "sunset" 2) store_without_is_active
           ltac:(by_computation) sd Hsd).
  split; [exact Htype | exact Hactive].
Defined.

(** What [create_booking] prints is a capacity that [>] has accepted, or
    [None]: the boundary of [py_str] is never met. *)

Lemma py_gt_int_renders (n : Z) (v : value) (b : bool) :
  py_gt (VInt n) v = inr b → ∃ s, py_str v = inr s.
Proof.
  unfold py_gt. destruct v as [| [] | | | | | |]; simpl; try discriminate; eauto.
Qed.

Lemma create_booking_renders (payload : Booking.t) (db : Store) :
  (create_booking payload db).1 ≠ inl NotRendered.
Proof.
  unfold create_booking. rewrite run_query.
  destruct (find_one db "trip" _) as [trip |]; [| discriminate].
  destruct (py_not (Some trip)); [discriminate |].
  cbn [default from_option id]. unfold dict_get.
  destruct (trip !! "capacity") as [v |]; cbn [default from_option id].
  - destruct (py_gt (VInt (Booking.people_count payload)) v) as [e | b] eqn:Hgt.
    + rewrite run_raise. cbn [fst]. intros [= ->].
      unfold py_gt in Hgt. destruct v as [| [] | | | | | |]; discriminate.
    + rewrite run_return. destruct (py_gt_int_renders _ _ _ Hgt) as [s Hs].
      destruct b; [rewrite Hs |]; discriminate.
  - unfold py_gt. rewrite py_lt_int, run_return.
    destruct (0 <? Booking.people_count payload); discriminate.
Qed.

(** ** The identifier helper *)

(** C8: [oid] returns the identifier that [ObjectId] parses from the
    string, and raises the 400 error "Invalid id" exactly when the string
    does not parse. *)
Theorem oid_parses_or_rejects (id_str : string) :
  ((∃ o, ObjectId_new id_str = Some o ∧ oid id_str = inr o)
   ∨ (ObjectId_new id_str = None
      ∧ oid id_str = inl (HTTPException 400 "Invalid id")))
  ∧ (oid id_str = inl (HTTPException 400 "Invalid id") ↔ ObjectId_new id_str = None).
Proof.
  unfold oid. destruct (ObjectId_new id_str) as [o |].
  - split; [left; eauto |]. split; discriminate.
  - split; [right; eauto |]. split; reflexivity.
Qed.

(** ** Identifiers print and parse back *)

Lemma hex_byte_roundtrip (b : Byte.byte) :
  let n := Byte.to_N b in
  hex_value (hex_digit (n / 16)) = Some (n / 16)%N
  ∧ hex_value (hex_digit (n mod 16)) = Some (n mod 16)%N
  ∧ byte_of_hex (n / 16) (n mod 16) = b.
Proof. destruct b; vm_compute; repeat split. Qed.

Lemma hex_digit_not_space (b : Byte.byte) :
  is_space (hex_digit (Byte.to_N b / 16)) = false.
Proof. destruct b; vm_compute; reflexivity. Qed.

Lemma bytes_fromhex_hex_of_bytes (bs : list Byte.byte) :
  bytes_fromhex (hex_of_bytes bs) = Some bs.
Proof.
  induction bs as [| b bs IH]; [reflexivity |].
  destruct (hex_byte_roundtrip b) as (Hhi & Hlo & Hb).
  cbn [hex_of_bytes bytes_fromhex].
  rewrite hex_digit_not_space, Hhi, Hlo, IH. cbn. now rewrite Hb.
Qed.

Lemma length_hex_of_bytes (bs : list Byte.byte) :
  String.length (hex_of_bytes bs) = (2 * length bs)%nat.
Proof. induction bs as [| b bs IH]; cbn [hex_of_bytes String.length length]; lia. Qed.

Lemma oid_of_rendered (o : ObjectId) :
  length (binary o) = 12%nat → oid (ObjectId_str o) = inr o.
Proof.
  intros Hlen. unfold oid, ObjectId_new, ObjectId_str.
  rewrite length_hex_of_bytes, Hlen, bytes_fromhex_hex_of_bytes.
  now destruct o.
Qed.

Lemma ObjectId_new_skips_whitespace :
  ObjectId_new "00 00 00 00 00 00 00 00 " = Some (mkObjectId (replicate 8 Byte.x00))
  ∧ ObjectId_new "0 0000000000000000000000" = None
  ∧ ObjectId_new "00000000000000000000000g" = None
  ∧ ObjectId_new "0000000000000000" = None.
Proof. repeat split. Qed.

Lemma length_be_bytes (width : nat) (n : N) : length (be_bytes width n) = width.
Proof.
  revert n. induction width as [| w IH]; intros n; [reflexivity |].
  cbn [be_bytes]. rewrite length_app, IH. cbn. lia.
Qed.

Lemma oid_of_generated (n : N) : oid (ObjectId_str (generate_id n)) = inr (generate_id n).
Proof. apply oid_of_rendered, length_be_bytes. Qed.

(** ** Insertion sort: the reference and the embedded one *)

Section StableSort.

Context {A : Type} (ltb : A → A → bool).

Lemma insert_by_perm (x : A) (l : list A) : insert_by ltb x l ≡ₚ x :: l.
Proof.
  induction l as [| y l IH]; simpl; [reflexivity |].
  destruct (ltb y x); [| reflexivity].
  rewrite IH. apply perm_swap.
Qed.

Lemma stable_sort_perm (l : list A) : stable_sort ltb l ≡ₚ l.
Proof.
  induction l as [| x l IH]; simpl; [reflexivity |].
  now rewrite insert_by_perm, IH.
Qed.

Section Sorted.

Hypothesis ltb_asym : ∀ a b, ltb a b = true → ltb b a = false.
Hypothesis geb_trans :
  ∀ a b c, ltb b a = false → ltb c b = false → ltb c a = false.

Lemma insert_by_sorted (x : A) (l : list A) :
  StronglySorted (λ a b, ltb b a = false) l →
  StronglySorted (λ a b, ltb b a = false) (insert_by ltb x l).
Proof.
  induction 1 as [| y l Hs IH Hy]; simpl.
  - repeat constructor.
  - destruct (ltb y x) eqn:Hyx.
    + constructor; [exact IH |].
      eapply Forall_forall. intros z Hz.
      apply list_elem_of_In in Hz.
      eapply Permutation_in in Hz; [| apply insert_by_perm].
      destruct Hz as [<- | Hz]; [now apply ltb_asym |].
      rewrite Forall_forall in Hy. apply Hy. now apply list_elem_of_In.
    + constructor; [now constructor |].
      constructor; [exact Hyx |].
      eapply Forall_impl; [exact Hy |]. intros z Hz. simpl in Hz.
      now apply (geb_trans x y z).
Qed.

Lemma stable_sort_sorted (l : list A) :
  StronglySorted (λ a b, ltb b a = false) (stable_sort ltb l).
Proof.
  induction l as [| x l IH]; simpl; [constructor | now apply insert_by_sorted].
Qed.

End Sorted.

Section Stable.

Context (p : A → bool).
Hypothesis ltb_apart : ∀ y x, ltb y x = true → p x = true → p y = false.

Lemma filter_insert_by (x : A) (l : list A) :
  List.filter p (insert_by ltb x l) = List.filter p (x :: l).
Proof.
  induction l as [| y l IH]; [reflexivity |].
  cbn [insert_by]. destruct (ltb y x) eqn:Hyx; [| reflexivity].
  cbn [List.filter] in *. rewrite IH.
  destruct (p x) eqn:Hx; [| reflexivity].
  now rewrite (ltb_apart y x Hyx Hx).
Qed.

Lemma filter_stable_sort (l : list A) :
  List.filter p (stable_sort ltb l) = List.filter p l.
Proof.
  induction l as [| x l IH]; [reflexivity |].
  cbn [stable_sort]. rewrite filter_insert_by. cbn [List.filter].
  now rewrite IH.
Qed.

End Stable.

(** The embedded sort returns what the reference does wherever its
    comparison returns the boolean order. *)

Context (lt : A → A → result bool) (P : A → Prop).
Hypothesis lt_agrees : ∀ a b, P a → P b → lt a b = inr (ltb a b).

Lemma sort_insert_agrees (x : A) (l : list A) :
  P x → Forall P l → sort_insert lt x l = inr (insert_by ltb x l).
Proof.
  intros Hx Hl. induction Hl as [| y l Hy Hl IH]; [reflexivity |].
  cbn [sort_insert insert_by]. rewrite (lt_agrees y x Hy Hx).
  cbn. destruct (ltb y x); [| reflexivity]. now rewrite IH.
Qed.

Lemma sort_with_agrees (l : list A) :
  Forall P l → sort_with lt l = inr (stable_sort ltb l).
Proof.
  induction 1 as [| x l Hx Hl IH]; [reflexivity |].
  cbn [sort_with stable_sort]. rewrite IH. cbn.
  apply sort_insert_agrees; [exact Hx |].
  eapply Forall_forall. intros z Hz. rewrite Forall_forall in Hl. apply Hl.
  apply list_elem_of_In. eapply Permutation_in; [apply stable_sort_perm |].
  now apply list_elem_of_In.
Qed.

End StableSort.

(** Whatever the comparison, a sort that returns has permuted its input. *)

Lemma sort_insert_returns_perm {A : Type} (lt : A → A → result bool)
    (x : A) (l l' : list A) :
  sort_insert lt x l = inr l' → l' ≡ₚ x :: l.
Proof.
  revert l'. induction l as [| y l IH]; intros l'; cbn [sort_insert].
  - intros [= <-]. reflexivity.
  - destruct (lt y x) as [e | []]; cbn; [discriminate | |].
    + destruct (sort_insert lt x l) as [e | r]; cbn; [discriminate |].
      intros [= <-]. rewrite (IH r eq_refl). apply perm_swap.
    + intros [= <-]. reflexivity.
Qed.

Lemma sort_with_returns_perm {A : Type} (lt : A → A → result bool)
    (l l' : list A) :
  sort_with lt l = inr l' → l' ≡ₚ l.
Proof.
  revert l'. induction l as [| x l IH]; intros l'; cbn [sort_with].
  - intros [= <-]. reflexivity.
  - destruct (sort_with lt l) as [e | s]; cbn; [discriminate |].
    intros H%sort_insert_returns_perm. now rewrite H, (IH s eq_refl).
Qed.

(** ** The order on keys *)

Lemma string_compare_refl (s : string) : String.compare s s = Eq.
Proof.
  induction s as [| c s IH]; [reflexivity |].
  simpl. unfold Ascii.compare. now rewrite N.compare_refl.
Qed.

Lemma string_compare_trans (a b c : string) :
  String.compare a b = Lt → String.compare b c = Lt → String.compare a c = Lt.
Proof.
  revert b c. induction a as [| x a IH]; intros [| y b] [| z c]; simpl;
    try discriminate; try reflexivity.
  unfold Ascii.compare.
  destruct (N.compare_spec (N_of_ascii x) (N_of_ascii y)) as [Hxy | Hxy | Hxy];
    destruct (N.compare_spec (N_of_ascii y) (N_of_ascii z)) as [Hyz | Hyz | Hyz];
    try discriminate; intros Hab Hbc.
  - rewrite Hxy, Hyz, N.compare_refl. now apply (IH b c).
  - rewrite Hxy. now apply N.compare_lt_iff in Hyz as ->.
  - rewrite <- Hyz. now apply N.compare_lt_iff in Hxy as ->.
  - assert (H : (N_of_ascii x < N_of_ascii z)%N) by lia.
    now apply N.compare_lt_iff in H as ->.
Qed.

Lemma key_compare_antisym (k1 k2 : Z * string) :
  key_compare k1 k2 = CompOpp (key_compare k2 k1).
Proof.
  unfold key_compare. rewrite (Z.compare_antisym k1.1 k2.1).
  destruct (k1.1 ?= k2.1)%Z; simpl; try reflexivity.
  apply String.compare_antisym.
Qed.

Lemma key_compare_eq (k1 k2 : Z * string) :
  key_compare k1 k2 = Eq ↔ k1 = k2.
Proof.
  unfold key_compare. destruct k1 as [n1 s1], k2 as [n2 s2]. simpl. split.
  - destruct (Z.compare_spec n1 n2) as [-> | |]; try discriminate.
    now intros ->%String.compare_eq_iff.
  - intros [= -> ->]. now rewrite Z.compare_refl, string_compare_refl.
Qed.

Lemma key_compare_lt_trans (k1 k2 k3 : Z * string) :
  key_compare k1 k2 = Lt → key_compare k2 k3 = Lt → key_compare k1 k3 = Lt.
Proof.
  unfold key_compare.
  destruct k1 as [n1 s1], k2 as [n2 s2], k3 as [n3 s3]. simpl.
  destruct (Z.compare_spec n1 n2) as [-> | H12 | H12];
    destruct (Z.compare_spec n2 n3) as [-> | H23 | H23];
    try discriminate; intros Ha Hb.
  - now apply (string_compare_trans s1 s2 s3).
  - reflexivity.
  - now apply Z.compare_lt_iff in H12 as ->.
  - assert (H : n1 < n3) by lia. now apply Z.compare_lt_iff in H as ->.
Qed.

Lemma faq_ltb_asym (a b : Document) : faq_ltb a b = true → faq_ltb b a = false.
Proof.
  unfold faq_ltb, faq_compare.
  rewrite (key_compare_antisym (faq_sort_key b)).
  now destruct (key_compare (faq_sort_key a) (faq_sort_key b)).
Qed.

Lemma key_compare_flip (k1 k2 : Z * string) :
  key_compare k1 k2 = Gt → key_compare k2 k1 = Lt.
Proof. intros H. now rewrite key_compare_antisym, H. Qed.

Lemma key_compare_ge_trans (k1 k2 k3 : Z * string) :
  key_compare k2 k1 ≠ Lt → key_compare k3 k2 ≠ Lt → key_compare k3 k1 ≠ Lt.
Proof.
  intros H21 H32 H31.
  destruct (key_compare k2 k1) eqn:E21; [| congruence |].
  - apply key_compare_eq in E21 as ->. congruence.
  - destruct (key_compare k3 k2) eqn:E32; [| congruence |].
    + apply key_compare_eq in E32 as ->. congruence.
    + apply key_compare_flip in E21, E32.
      pose proof (key_compare_lt_trans _ _ _ E21 E32) as H13.
      rewrite key_compare_antisym, H13 in H31. discriminate.
Qed.

Lemma is_Lt_false (c : comparison) : is_Lt c = false ↔ c ≠ Lt.
Proof. destruct c; simpl; split; congruence. Qed.

Lemma faq_geb_trans (a b c : Document) :
  faq_ltb b a = false → faq_ltb c b = false → faq_ltb c a = false.
Proof.
  unfold faq_ltb, faq_compare. rewrite !is_Lt_false.
  apply key_compare_ge_trans.
Qed.

Lemma faq_le_iff (a b : Document) : faq_ltb b a = false ↔ faq_le a b.
Proof.
  unfold faq_ltb, faq_compare, key_compare, faq_sort_key, faq_le, String.leb.
  cbn [fst snd]. rewrite is_Lt_false.
  rewrite (String.compare_antisym (faq_question a) (faq_question b)).
  destruct (Z.compare_spec (faq_order b) (faq_order a)) as [Heq | Hlt | Hgt].
  - destruct (String.compare (faq_question b) (faq_question a)); simpl;
      split; intros H; try congruence; try (right; now split);
      destruct H as [H | [_ H]]; [lia | discriminate].
  - split; [congruence | intros [H | [H _]]; lia].
  - split; [intros _; now left | congruence].
Qed.

Lemma same_key_iff (k : Z * string) (d : Document) :
  same_key k d = true ↔ faq_sort_key d = k.
Proof.
  unfold same_key, faq_sort_key. destruct k as [n s]. cbn [fst snd].
  rewrite andb_true_iff, Z.eqb_eq, String.eqb_eq. split.
  - now intros [-> ->].
  - now intros [= -> ->].
Qed.

Lemma faq_ltb_apart (k : Z * string) (y x : Document) :
  faq_ltb y x = true → same_key k x = true → same_key k y = false.
Proof.
  intros Hlt Hx%same_key_iff. apply not_true_is_false. intros Hy%same_key_iff.
  unfold faq_ltb, faq_compare in Hlt. rewrite Hx, Hy in Hlt.
  assert (H : key_compare k k = Eq) by now apply key_compare_eq.
  rewrite H in Hlt. discriminate.
Qed.

Lemma faq_key_typed (d : Document) :
  faq_typed d = true → faq_key d = (VInt (faq_order d), VStr (faq_question d)).
Proof.
  unfold faq_typed, faq_key, faq_order, faq_question, dict_get.
  destruct (d !! "order") as [[] |], (d !! "question") as [[] |];
    simpl; intros; try discriminate; reflexivity.
Qed.

Lemma tuple_lt_typed (a b : Document) :
  faq_typed a = true → faq_typed b = true →
  tuple_lt (faq_key a) (faq_key b) = inr (faq_ltb a b).
Proof.
  intros Ha%faq_key_typed Hb%faq_key_typed. rewrite Ha, Hb.
  unfold tuple_lt, faq_ltb, faq_compare, key_compare, faq_sort_key.
  cbn [fst snd]. rewrite py_eq_int, py_lt_int. cbn [py_eq py_lt].
  rewrite Z.eqb_compare. unfold Z.ltb, String.ltb.
  destruct (faq_order a ?= faq_order b)%Z; try reflexivity. cbn [negb].
  destruct (String.eqb_spec (faq_question a) (faq_question b)) as [-> | Hne];
    cbn [negb].
  - now rewrite string_compare_refl.
  - now destruct (String.compare (faq_question a) (faq_question b)).
Qed.

(** ** The listings *)

Lemma find_all (db : Store) (name : string) :
  find db name [] = to_dict <$> collection db name.
Proof.
  unfold find. induction (to_dict <$> collection db name) as [| d l IH];
    [reflexivity |]. simpl. now rewrite IH.
Qed.

Lemma get_documents_all (db : Store) (name : string) :
  get_documents db name [] None = to_dict <$> collection db name.
Proof. unfold get_documents. now rewrite find_all. Qed.

Lemma get_documents_limit (db : Store) (name : string) (n : nat) :
  get_documents db name [] (Some n) = to_dict <$> take n (collection db name).
Proof. unfold get_documents. now rewrite find_all, fmap_take. Qed.

Lemma jsonify_stored (sd : StoredDoc) : jsonify (to_dict sd) = inr (rendered sd).
Proof.
  assert (H : to_dict sd !! "_id" = Some (VOid (doc_id sd))).
  { unfold to_dict. apply lookup_insert_eq. }
  unfold jsonify, dict_item. now rewrite H.
Qed.

Lemma mapM_cons {A B : Type} (f : A → result B) (x : A) (l : list A) :
  mapM f (x :: l) = (f x ≫= λ y, mapM f l ≫= λ k, mret (y :: k)).
Proof. reflexivity. Qed.

Lemma mapM_jsonify (l : list StoredDoc) :
  mapM jsonify (to_dict <$> l) = inr (rendered <$> l).
Proof.
  induction l as [| sd l IH]; [reflexivity |].
  rewrite fmap_cons, mapM_cons, jsonify_stored, IH. reflexivity.
Qed.

Lemma get_trips_returns (db : Store) :
  get_trips db = (inr (rendered <$> collection db "trip"), db).
Proof.
  unfold get_trips. rewrite run_query, get_documents_all. unfold pure.
  now rewrite mapM_jsonify.
Qed.

Lemma get_reviews_returns (db : Store) :
  get_reviews db = (inr (rendered <$> take 50 (collection db "review")), db).
Proof.
  unfold get_reviews. rewrite run_query, get_documents_limit. unfold pure.
  now rewrite mapM_jsonify.
Qed.

Lemma get_faqs_sorts_fetched (db : Store) :
  get_faqs db = (list_sort faq_key (rendered <$> take 100 (collection db "faq")), db).
Proof.
  unfold get_faqs. rewrite run_query, get_documents_limit.
  rewrite mapM_jsonify, run_return. reflexivity.
Qed.

Lemma rendered_lookup (sd : StoredDoc) (k : string) :
  k ≠ "_id" → rendered sd !! k = to_dict sd !! k.
Proof. intros Hk. unfold rendered. now rewrite lookup_insert_ne. Qed.

Lemma rendered_id (sd : StoredDoc) :
  rendered sd !! "_id" = Some (VStr (ObjectId_str (doc_id sd))).
Proof. unfold rendered. apply lookup_insert_eq. Qed.

Lemma faq_typed_rendered (sd : StoredDoc) :
  faq_typed (rendered sd) = faq_typed (to_dict sd).
Proof. unfold faq_typed. now rewrite !rendered_lookup. Qed.

Lemma faq_typed_check (l : list StoredDoc) :
  forallb (λ sd, faq_typed (to_dict sd)) l = true →
  Forall (λ sd, faq_typed (to_dict sd) = true) l.
Proof.
  rewrite forallb_forall, Forall_forall. intros H sd Hsd.
  now apply H, list_elem_of_In.
Qed.

Lemma list_sort_typed (l : list StoredDoc) :
  Forall (λ sd, faq_typed (to_dict sd) = true) l →
  list_sort faq_key (rendered <$> l) = inr (stable_sort faq_ltb (rendered <$> l)).
Proof.
  intros Hl. unfold list_sort.
  apply (sort_with_agrees faq_ltb _ (λ d, faq_typed d = true)).
  - intros a b. apply tuple_lt_typed.
  - apply Forall_fmap. eapply Forall_impl; [exact Hl |].
    intros sd Hsd. simpl. now rewrite faq_typed_rendered.
Qed.

Lemma StronglySorted_weaken {A : Type} (R S : A → A → Prop) (l : list A) :
  (∀ a b, R a b → S a b) → StronglySorted R l → StronglySorted S l.
Proof.
  intros HRS. induction 1 as [| x l Hs IH Hx]; constructor; [exact IH |].
  eapply Forall_impl; [exact Hx | apply HRS].
Qed.

(** C5, as the code has it: on a store whose fetched FAQ documents (the
    first 100 in store order) carry an integer [order] or none and a
    string [question] or none, [get_faqs] returns, without writing, at
    most 100 documents: the fetched ones, identifiers rendered, in
    ascending order of [(order, question)] with an absent [order] read as
    0 and an absent [question] as the empty string, documents of equal
    key in their store order. *)
Theorem get_faqs_sorted_when_typed (db : Store) :
  let fetched := take 100 (collection db "faq") in
  Forall (λ sd, faq_typed (to_dict sd) = true) fetched →
  ∃ faqs,
    get_faqs db = (inr faqs, db)
    ∧ (length faqs ≤ 100)%nat
    ∧ faqs ≡ₚ rendered <$> fetched
    ∧ StronglySorted faq_le faqs
    ∧ ∀ k, List.filter (same_key k) faqs
           = List.filter (same_key k) (rendered <$> fetched).
Proof.
  intros fetched Htyped.
  exists (stable_sort faq_ltb (rendered <$> fetched)).
  split; [| split; [| split; [| split]]].
  - rewrite get_faqs_sorts_fetched. fold fetched. now rewrite list_sort_typed.
  - rewrite (Permutation_length (stable_sort_perm faq_ltb _)).
    rewrite length_fmap. unfold fetched. rewrite length_take. lia.
  - apply stable_sort_perm.
  - eapply StronglySorted_weaken; [| apply stable_sort_sorted].
    + intros a b. apply faq_le_iff.
    + apply faq_ltb_asym.
    + apply faq_geb_trans.
  - intros k. apply filter_stable_sort. apply faq_ltb_apart.
Qed.

Lemma get_faqs_sorted_when_typed_witness :
  (fmap (M:=list) faq_sort_key <$> (get_faqs store_with_five_faqs).1)
    = inr [(0, ""); (1, "a"); (1, "b"); (2, "d"); (3, "c")]
  ∧ ∃ faqs,
      get_faqs store_with_five_faqs = (inr faqs, store_with_five_faqs)
      ∧ (length faqs ≤ 100)%nat
      ∧ StronglySorted faq_le faqs.
Proof.
  split; [by_computation |].
  destruct (get_faqs_sorted_when_typed store_with_five_faqs)
    as (faqs & Hrun & Hlen & _ & Hsorted & _).
  - apply faq_typed_check. by_computation.
  - exists faqs. repeat split; assumption.
Defined.

(** C5, the claim as stated fails: with an [order] that is a string next
    to one that is an integer the sort raises [TypeError], and no list is
    returned. *)
Lemma get_faqs_mixed_orders_raises :
  get_faqs store_with_mixed_orders = (inl TypeError, store_with_mixed_orders).
Proof. by_computation. Qed.

Lemma rendered_members (l : list StoredDoc) (docs : list Document) :
  docs ≡ₚ rendered <$> l →
  Forall (λ d : Document,
            ∃ sd, sd ∈ l
                  ∧ d = rendered sd
                  ∧ to_dict sd !! "_id" = Some (VOid (doc_id sd))
                  ∧ d !! "_id" = Some (VStr (ObjectId_str (doc_id sd))))
    docs.
Proof.
  intros Hperm. apply Forall_forall. intros d Hd.
  rewrite Hperm in Hd. apply list_elem_of_fmap in Hd as (sd & -> & Hsd).
  exists sd. split; [exact Hsd |]. split; [reflexivity |]. split.
  - unfold to_dict. apply lookup_insert_eq.
  - apply rendered_id.
Qed.

(** C7: whatever list [get_trips], [get_faqs] or [get_reviews] returns,
    it holds the documents the handler fetched (all trips, the first 100
    FAQs, the first 50 reviews), each one rendered and nothing else: every
    returned document is a fetched stored document whose [_id], the
    store's identifier of that very document, has been replaced by the
    string rendering of that identifier, all other fields being those of
    the stored document. *)
Theorem listed_ids_are_strings (db : Store) (fetched : list StoredDoc)
    (docs : list Document) :
  ((get_trips db).1 = inr docs ∧ fetched = collection db "trip")
  ∨ ((get_faqs db).1 = inr docs ∧ fetched = take 100 (collection db "faq"))
  ∨ ((get_reviews db).1 = inr docs ∧ fetched = take 50 (collection db "review")) →
  docs ≡ₚ rendered <$> fetched
  ∧ Forall (λ d : Document,
              ∃ sd, sd ∈ fetched
                    ∧ d = rendered sd
                    ∧ to_dict sd !! "_id" = Some (VOid (doc_id sd))
                    ∧ d !! "_id" = Some (VStr (ObjectId_str (doc_id sd))))
      docs.
Proof.
  intros H.
  assert (Hperm : docs ≡ₚ rendered <$> fetched).
  { destruct H as [[H ->] | [[H ->] | [H ->]]].
    - rewrite get_trips_returns in H. now injection H as <-.
    - rewrite get_faqs_sorts_fetched in H. cbn [fst] in H.
      now apply sort_with_returns_perm in H.
    - rewrite get_reviews_returns in H. now injection H as <-. }
  split; [exact Hperm | now apply rendered_members].
Qed.

Lemma listed_ids_are_strings_witness :
  rendered <$> collection seeded_store "trip"
    ≡ₚ rendered <$> collection seeded_store "trip"
  ∧ Forall (λ d : Document,
              ∃ sd, sd ∈ collection seeded_store "trip"
                    ∧ d = rendered sd
                    ∧ to_dict sd !! "_id" = Some (VOid (doc_id sd))
                    ∧ d !! "_id" = Some (VStr (ObjectId_str (doc_id sd))))
      (rendered <$> collection seeded_store "trip").
Proof.
  apply (listed_ids_are_strings seeded_store).
  left. split; [now rewrite get_trips_returns | reflexivity].
Defined.

(** C10: with more than 100 FAQ documents stored, [get_faqs] sorts the
    first 100 in store order and nothing else: its outcome is that of
    sorting them, a list it returns is a permutation of them, and it is
    their stable sort when their keys are typed.  This is not the 100
    smallest of the whole collection: on the store whose 101 documents
    count [order] down from 101, the answer differs from it. *)
Theorem get_faqs_limit_before_sort (db : Store) :
  (100 < length (collection db "faq"))%nat →
  let fetched := take 100 (collection db "faq") in
  get_faqs db = (list_sort faq_key (rendered <$> fetched), db)
  ∧ length fetched = 100%nat
  ∧ (∀ faqs, (get_faqs db).1 = inr faqs → faqs ≡ₚ rendered <$> fetched)
  ∧ (Forall (λ sd, faq_typed (to_dict sd) = true) fetched →
     (get_faqs db).1 = inr (stable_sort faq_ltb (rendered <$> fetched)))
  ∧ (get_faqs store_with_101_faqs).1
      ≠ inr (take 100 (stable_sort faq_ltb
                         (rendered <$> collection store_with_101_faqs "faq"))).
Proof.
  intros Hlen fetched. split; [| split; [| split; [| split]]].
  - apply get_faqs_sorts_fetched.
  - unfold fetched. rewrite length_take. lia.
  - intros faqs H. rewrite get_faqs_sorts_fetched in H.
    now apply sort_with_returns_perm in H.
  - intros Htyped. rewrite get_faqs_sorts_fetched. cbn [fst].
    now apply list_sort_typed.
  - intros H.
    apply (f_equal (λ r : result (list Document),
                      match r with
                      | inr l => head (faq_order <$> l)
                      | inl _ => None
                      end)) in H.
    assert (H2 : match (get_faqs store_with_101_faqs).1 with
                 | inr l => head (faq_order <$> l)
                 | inl _ => None
                 end = Some 2) by by_computation.
    assert (H1 : head (faq_order <$> take 100
                         (stable_sort faq_ltb
                            (rendered <$> collection store_with_101_faqs "faq")))
                 = Some 1) by by_computation.
    cbv beta in H. rewrite H2, H1 in H. discriminate H.
Qed.

Lemma get_faqs_limit_before_sort_witness :
  (fmap (M:=list) faq_order <$> (get_faqs store_with_101_faqs).1)
    = inr (seqZ 2 100)
  ∧ faq_order <$> take 100 (stable_sort faq_ltb
                              (rendered <$> collection store_with_101_faqs "faq"))
    = seqZ 1 100.
Proof.
  split; [| by_computation].
  destruct (get_faqs_limit_before_sort store_with_101_faqs)
    as (_ & _ & _ & Hsorted & _).
  - apply Nat.ltb_lt. by_computation.
  - rewrite Hsorted; [by_computation |].
    apply faq_typed_check. by_computation.
Defined.

(** ** The seed routine *)

Lemma count_all (db : Store) (name : string) :
  count_documents db name [] = length (collection db name).
Proof. unfold count_documents. now rewrite find_all, length_fmap. Qed.

Lemma collection_insert_one (db : Store) (name name' : string) (d : Document) :
  collection (insert_one db name d).2 name' =
    if decide (name = name')
    then collection db name ++ [mkStored (generate_id (next_id db)) d]
    else collection db name'.
Proof.
  unfold collection at 1. cbn [insert_one snd collections].
  rewrite lookup_insert. destruct (decide (name = name')); reflexivity.
Qed.

Lemma next_id_insert_one (db : Store) (name : string) (d : Document) :
  next_id (insert_one db name d).2 = N.succ (next_id db).
Proof. reflexivity. Qed.

Lemma collection_insert_many (db : Store) (name name' : string) (docs : list Document) :
  collection (insert_many db name docs) name' =
    if decide (name = name')
    then collection db name ++ stored_from (next_id db) docs
    else collection db name'.
Proof.
  unfold insert_many. revert db.
  induction docs as [| d docs IH]; intros db; cbn [foldl stored_from].
  - destruct (decide (name = name')) as [<- |]; [now rewrite app_nil_r | reflexivity].
  - rewrite IH, !collection_insert_one, next_id_insert_one.
    destruct (decide (name = name')) as [<- |]; [| reflexivity].
    rewrite decide_True by reflexivity. now rewrite <- app_assoc.
Qed.

Lemma seed_trips_returns : seed_trips = inr seed_trip_docs.
Proof. by_computation. Qed.

Lemma seed_trip_docs_types :
  (λ d : Document, d !! "trip_type") <$> seed_trip_docs
    = [Some (VStr "dimaniyat"); Some (VStr "sunset")].
Proof. by_computation. Qed.

Lemma seed_steps (db : Store) :
  seed db =
    let db1 := match collection db "trip" with
               | [] => insert_many db "trip" seed_trip_docs
               | _ :: _ => db
               end in
    let db2 := match collection db1 "faq" with
               | [] => insert_many db1 "faq" seed_faqs
               | _ :: _ => db1
               end in
    (inr status_ok, db2).
Proof.
  unfold seed. rewrite run_query, count_all.
  destruct (collection db "trip") as [| sd trips] eqn:Htrips; cbn [length Nat.eqb].
  - unfold mbind at 1, handler_bind. rewrite seed_trips_returns, run_return.
    unfold update at 1. cbn [fst snd].
    rewrite run_query, count_all.
    destruct (collection (insert_many db "trip" seed_trip_docs) "faq");
      reflexivity.
  - unfold mbind at 1, handler_bind. cbn [mret handler_ret].
    rewrite run_query, count_all.
    destruct (collection db "faq"); reflexivity.
Qed.

Lemma next_id_insert_many (db : Store) (name : string) (docs : list Document) :
  next_id (insert_many db name docs) = (next_id db + N.of_nat (length docs))%N.
Proof.
  unfold insert_many. revert db.
  induction docs as [| d docs IH]; intros db; cbn [foldl length].
  - lia.
  - rewrite IH, next_id_insert_one. lia.
Qed.

Lemma seed_trip_docs_length : length seed_trip_docs = 2%nat.
Proof. by_computation. Qed.

Lemma stored_from_nil (n : N) (docs : list Document) :
  stored_from n docs = [] → docs = [].
Proof. now destruct docs. Qed.

Lemma seed_when_populated (db : Store) :
  collection db "trip" ≠ [] → collection db "faq" ≠ [] →
  seed db = (inr status_ok, db).
Proof.
  intros Htrip Hfaq. rewrite seed_steps.
  destruct (collection db "trip"); [congruence |]. cbv zeta.
  destruct (collection db "faq"); [congruence | reflexivity].
Qed.

(** C6: [seed] appends its two trips to the trip collection exactly when
    that collection is empty, and its four FAQs to the FAQ collection
    exactly when that one is empty, each decision taken on its own
    collection; no other collection changes; and a second run, on the
    store the first one left, changes nothing. *)
Theorem seed_fills_empty_collections_once (db : Store) :
  let db' := (seed db).2 in
  let n := match collection db "trip" with
           | [] => (next_id db + 2)%N
           | _ :: _ => next_id db
           end in
  (seed db).1 = inr status_ok
  ∧ collection db' "trip" =
      collection db "trip"
        ++ match collection db "trip" with
           | [] => stored_from (next_id db) seed_trip_docs
           | _ :: _ => []
           end
  ∧ collection db' "faq" =
      collection db "faq"
        ++ match collection db "faq" with
           | [] => stored_from n seed_faqs
           | _ :: _ => []
           end
  ∧ length seed_trip_docs = 2%nat
  ∧ length seed_faqs = 4%nat
  ∧ (∀ name, name ≠ "trip" → name ≠ "faq" →
       collection db' name = collection db name)
  ∧ seed db' = (inr status_ok, db').
Proof.
  intros db' n.
  assert (Htrip : collection db' "trip" =
      collection db "trip"
        ++ match collection db "trip" with
           | [] => stored_from (next_id db) seed_trip_docs
           | _ :: _ => []
           end).
  { unfold db'. rewrite seed_steps. cbv zeta. cbn [snd].
    destruct (collection db "trip") as [| sd trips] eqn:Htrips.
    - set (db1 := insert_many db "trip" seed_trip_docs).
      assert (H1 : collection db1 "trip" = stored_from (next_id db) seed_trip_docs).
      { unfold db1.
        rewrite collection_insert_many, decide_True, Htrips by reflexivity.
        reflexivity. }
      destruct (collection db1 "faq");
        [rewrite collection_insert_many, decide_False by discriminate |];
        rewrite H1; reflexivity.
    - destruct (collection db "faq");
        [rewrite collection_insert_many, decide_False by discriminate |];
        rewrite Htrips, app_nil_r; reflexivity. }
  assert (Hfaq : collection db' "faq" =
      collection db "faq"
        ++ match collection db "faq" with
           | [] => stored_from n seed_faqs
           | _ :: _ => []
           end).
  { unfold db', n. rewrite seed_steps. cbv zeta. cbn [snd].
    destruct (collection db "trip") as [| sd trips] eqn:Htrips.
    - set (db1 := insert_many db "trip" seed_trip_docs).
      assert (H1 : collection db1 "faq" = collection db "faq").
      { unfold db1.
        rewrite collection_insert_many, decide_False by discriminate.
        reflexivity. }
      assert (Hn : next_id db1 = (next_id db + 2)%N).
      { unfold db1. now rewrite next_id_insert_many, seed_trip_docs_length. }
      rewrite H1. destruct (collection db "faq") as [| fd faqs] eqn:Hfaqs.
      + rewrite collection_insert_many, decide_True, H1, Hn by reflexivity.
        reflexivity.
      + now rewrite H1, app_nil_r.
    - destruct (collection db "faq") as [| fd faqs] eqn:Hfaqs.
      + rewrite collection_insert_many, decide_True, Hfaqs by reflexivity.
        reflexivity.
      + now rewrite Hfaqs, app_nil_r. }
  split; [| split; [exact Htrip | split; [exact Hfaq | split; [| split; [| split]]]]].
  - rewrite seed_steps. reflexivity.
  - apply seed_trip_docs_length.
  - reflexivity.
  - intros name Hnt Hnf. unfold db'. rewrite seed_steps. cbv zeta. cbn [snd].
    assert (Hother : ∀ s docs, collection (insert_many s "trip" docs) name
                               = collection s name).
    { intros s docs. now rewrite collection_insert_many, decide_False by congruence. }
    assert (Hother' : ∀ s docs, collection (insert_many s "faq" docs) name
                                = collection s name).
    { intros s docs. now rewrite collection_insert_many, decide_False by congruence. }
    destruct (collection db "trip");
      match goal with
      | |- context [match ?c with [] => _ | _ :: _ => _ end] => destruct c
      end;
      now rewrite ?Hother', ?Hother.
  - apply seed_when_populated.
    + rewrite Htrip. destruct (collection db "trip"); [| discriminate].
      pose proof seed_trip_docs_length as Hlen.
      destruct seed_trip_docs; [discriminate Hlen | discriminate].
    + rewrite Hfaq. destruct (collection db "faq"); discriminate.
Qed.

(** * Further properties of the handlers *)

(** ** Booking creation, case by case *)

Lemma create_booking_unfold (payload : Booking.t) (db : Store) :
  create_booking payload db =
    match find_one db "trip" (booking_filter payload) with
    | None => (inl (HTTPException 404 "Trip not found"), db)
    | Some trip =>
        match py_gt (VInt (Booking.people_count payload))
                (dict_get trip "capacity" (VInt 0)) with
        | inl e => (inl e, db)
        | inr true =>
            match py_str (dict_get trip "capacity" VNone) with
            | inl e => (inl e, db)
            | inr shown =>
                (inl (HTTPException 400
                        ("Maximum capacity is " +:+ shown +:+ " for this trip")),
                 db)
            end
        | inr false =>
            (inr (list_to_map
                    [("status", VStr "received");
                     ("id", VStr (ObjectId_str (generate_id (next_id db))))]),
             (insert_one db "booking" (Booking.model_dump payload)).2)
        end
    end.
Proof.
  destruct (find_one db "trip" (booking_filter payload)) as [trip |] eqn:Hfind.
  - run_lookup Hfind.
    destruct (py_gt _ _) as [e | []]; [reflexivity | | reflexivity].
    rewrite run_return. destruct (py_str _); reflexivity.
  - now apply create_booking_lookup_None.
Qed.

Lemma find_one_depends_on_collection (db db' : Store) (name : string)
    (flt : list (string * value)) :
  collection db' name = collection db name →
  find_one db' name flt = find_one db name flt.
Proof. intros H. unfold find_one, find. now rewrite H. Qed.

(** X1: a booking that ends in an error, whichever, has written nothing. *)
Theorem create_booking_failure_keeps_store
    (payload : Booking.t) (db : Store) (e : exn) :
  (create_booking payload db).1 = inl e →
  (create_booking payload db).2 = db.
Proof.
  rewrite create_booking_unfold.
  destruct (find_one db "trip" (booking_filter payload)) as [trip |];
    [| reflexivity].
  destruct (py_gt _ _) as [e' | []]; [reflexivity | | discriminate].
  destruct (py_str _); reflexivity.
Qed.

Lemma create_booking_failure_keeps_store_witness :
  (create_booking (sample_booking "sunset" 11) seeded_store).2 = seeded_store.
Proof.
  apply (create_booking_failure_keeps_store (sample_booking "sunset" 11)
           seeded_store
           (HTTPException 400 "Maximum capacity is 10 for this trip")).
  by_computation.
Defined.

(** X2: a booking is stored only after the check: when [create_booking]
    returns, the lookup had found an active trip of the submitted type
    and [people_count > capacity] had evaluated to false against it, so
    an integer capacity is at least [people_count], and a missing one
    lets through only a [people_count] of 0 or less. *)
Theorem create_booking_accepted_was_checked
    (payload : Booking.t) (db db' : Store) (response : Document) :
  create_booking payload db = (inr response, db') →
  ∃ trip,
    find_one db "trip" (booking_filter payload) = Some trip
    ∧ trip !! "trip_type" = Some (VStr (Booking.trip_type payload))
    ∧ trip !! "is_active" = Some (VBool true)
    ∧ py_gt (VInt (Booking.people_count payload))
        (dict_get trip "capacity" (VInt 0)) = inr false
    ∧ (∀ C, trip !! "capacity" = Some (VInt C) → Booking.people_count payload ≤ C)
    ∧ (trip !! "capacity" = None → Booking.people_count payload ≤ 0).
Proof.
  rewrite create_booking_unfold.
  destruct (find_one db "trip" (booking_filter payload)) as [trip |] eqn:Hfind;
    [| discriminate].
  destruct (py_gt _ _) as [e' | []] eqn:Hgt; [discriminate | | intros _].
  { destruct (py_str _); discriminate. }
  exists trip.
  pose proof (find_one_Some _ _ _ _ Hfind) as [Hm _].
  apply matches_booking_filter in Hm as [Htype Hactive].
  repeat split; try assumption.
  - intros C HC. unfold dict_get, py_gt in Hgt. rewrite HC in Hgt.
    cbn [default from_option id] in Hgt. rewrite py_lt_int in Hgt.
    injection Hgt as Hgt. now apply Z.ltb_ge.
  - intros HN. unfold dict_get, py_gt in Hgt. rewrite HN in Hgt.
    cbn [default from_option id] in Hgt. rewrite py_lt_int in Hgt.
    injection Hgt as Hgt. now apply Z.ltb_ge.
Qed.

Lemma create_booking_accepted_was_checked_witness :
  ∃ trip,
    find_one seeded_store "trip" (booking_filter (sample_booking "sunset" 10))
      = Some trip
    ∧ (∀ C, trip !! "capacity" = Some (VInt C) → 10 ≤ C).
Proof.
  destruct (create_booking_accepted_was_checked (sample_booking "sunset" 10)
              seeded_store
              (create_booking (sample_booking "sunset" 10) seeded_store).2
              (list_to_map [("status", VStr "received");
                            ("id", VStr "000000000000000000000006")]))
    as (trip & Hfind & _ & _ & _ & Hcap & _).
  - by_computation.
  - exists trip. split; [exact Hfind | exact Hcap].
Defined.

(** X3: when the trip found stores a [capacity] that is not a number
    (text, null, a date, a list), the comparison raises [TypeError]: the
    booking fails without a write and without the 400 message. *)
Theorem create_booking_capacity_not_a_number
    (payload : Booking.t) (db : Store) (trip : Document) (v : value) :
  find_one db "trip" (booking_filter payload) = Some trip →
  trip !! "capacity" = Some v →
  as_number v = None →
  create_booking payload db = (inl TypeError, db).
Proof.
  intros Hfind Hcap Hnum. rewrite create_booking_unfold, Hfind.
  unfold dict_get, py_gt. rewrite Hcap. cbn [default from_option id].
  destruct v; try discriminate Hnum; reflexivity.
Qed.

Lemma create_booking_capacity_not_a_number_witness :
  create_booking (sample_booking "sunset" 2) store_with_text_capacity
    = (inl TypeError, store_with_text_capacity).
Proof.
  apply (create_booking_capacity_not_a_number (sample_booking "sunset" 2)
           store_with_text_capacity
           (default ∅ (find_one store_with_text_capacity "trip"
                         (booking_filter (sample_booking "sunset" 2))))
           (VStr "ten")).
  - by_computation.
  - by_computation.
  - reflexivity.
Defined.

(** X4: nothing is reserved.  An accepted booking leaves the trip
    collection as it was, and the same submission is accepted again on
    the store it left, the booking collection growing by one each time. *)
Theorem create_booking_does_not_use_up_capacity
    (payload : Booking.t) (db db' : Store) (response : Document) :
  create_booking payload db = (inr response, db') →
  collection db' "trip" = collection db "trip"
  ∧ ∃ response' db'',
      create_booking payload db' = (inr response', db'')
      ∧ length (collection db'' "booking")
        = (length (collection db "booking") + 2)%nat.
Proof.
  rewrite create_booking_unfold.
  destruct (find_one db "trip" (booking_filter payload)) as [trip |] eqn:Hfind;
    [| discriminate].
  destruct (py_gt _ _) as [e' | []] eqn:Hgt; [discriminate | |].
  { destruct (py_str _); discriminate. }
  intros [= _ <-].
  set (db1 := (insert_one db "booking" (Booking.model_dump payload)).2).
  assert (Htrip : collection db1 "trip" = collection db "trip").
  { unfold db1. now rewrite collection_insert_one, decide_False by discriminate. }
  split; [exact Htrip |].
  rewrite create_booking_unfold.
  rewrite (find_one_depends_on_collection db _ "trip" _ Htrip), Hfind, Hgt.
  exists (list_to_map [("status", VStr "received");
                       ("id", VStr (ObjectId_str (generate_id (next_id db1))))]),
         (insert_one db1 "booking" (Booking.model_dump payload)).2.
  split; [reflexivity |].
  rewrite collection_insert_one, decide_True by reflexivity. unfold db1.
  rewrite collection_insert_one, decide_True by reflexivity.
  rewrite !length_app. cbn [length]. lia.
Qed.

Lemma create_booking_does_not_use_up_capacity_witness :
  collection (create_booking (sample_booking "sunset" 10) seeded_store).2 "trip"
    = collection seeded_store "trip"
  ∧ ∃ response' db'',
      create_booking (sample_booking "sunset" 10)
        (create_booking (sample_booking "sunset" 10) seeded_store).2
        = (inr response', db'')
      ∧ length (collection db'' "booking")
        = (length (collection seeded_store "booking") + 2)%nat.
Proof.
  apply (create_booking_does_not_use_up_capacity (sample_booking "sunset" 10)
           seeded_store _
           (list_to_map [("status", VStr "received");
                         ("id", VStr "000000000000000000000006")])).
  by_computation.
Defined.

Lemma find_one_first_match (db : Store) (name : string)
    (flt : list (string * value)) (pre post : list StoredDoc) (sd : StoredDoc) :
  collection db name = pre ++ sd :: post →
  (∀ sd', sd' ∈ pre → matches flt (to_dict sd') = false) →
  matches flt (to_dict sd) = true →
  find_one db name flt = Some (to_dict sd).
Proof.
  intros Hcoll Hpre Hsd. unfold find_one, find. rewrite Hcoll. clear Hcoll.
  induction pre as [| sd' pre IH]; cbn.
  - now rewrite Hsd.
  - rewrite Hpre by left. apply IH. intros sd'' Hin. apply Hpre. now right.
Qed.

(** X5: the first matching trip in store order decides.  If the trip
    collection holds an active trip of the submitted type with integer
    capacity [C], and no document before it matches, the booking is
    judged against [C], whatever trips follow: refused with the message
    naming [C] when larger, accepted otherwise. *)
Theorem create_booking_first_match_decides
    (payload : Booking.t) (db : Store) (pre post : list StoredDoc)
    (sd : StoredDoc) (C : Z) :
  collection db "trip" = pre ++ sd :: post →
  (∀ sd', sd' ∈ pre →
     ¬ (to_dict sd' !! "trip_type" = Some (VStr (Booking.trip_type payload)) ∧
        to_dict sd' !! "is_active" = Some (VBool true))) →
  to_dict sd !! "trip_type" = Some (VStr (Booking.trip_type payload)) →
  to_dict sd !! "is_active" = Some (VBool true) →
  to_dict sd !! "capacity" = Some (VInt C) →
  (C < Booking.people_count payload →
   create_booking payload db =
     (inl (HTTPException 400
             ("Maximum capacity is " +:+ pretty C +:+ " for this trip")), db))
  ∧ (Booking.people_count payload ≤ C →
     ∃ response db', create_booking payload db = (inr response, db')).
Proof.
  intros Hcoll Hpre Htype Hactive Hcap.
  assert (Hfind : find_one db "trip" (booking_filter payload) = Some (to_dict sd)).
  { apply (find_one_first_match _ _ _ pre post); [exact Hcoll | |].
    - intros sd' Hin. apply not_true_is_false.
      rewrite matches_booking_filter. now apply Hpre.
    - now apply matches_booking_filter. }
  rewrite create_booking_unfold, Hfind. unfold dict_get, py_gt.
  rewrite Hcap. cbn [default from_option id]. rewrite py_lt_int.
  split.
  - intros Hlt%Z.ltb_lt. now rewrite Hlt.
  - intros Hle%Z.ltb_ge. rewrite Hle. eauto.
Qed.

Lemma create_booking_first_match_decides_witness :
  create_booking (sample_booking "sunset" 6) store_with_two_sunsets =
    (inl (HTTPException 400 "Maximum capacity is 4 for this trip"),
     store_with_two_sunsets).
Proof.
  refine (eq_trans
            (proj1 (create_booking_first_match_decides
                      (sample_booking "sunset" 6) store_with_two_sunsets []
                      (tail (collection store_with_two_sunsets "trip"))
                      (default (mkStored (generate_id 0) ∅)
                         (head (collection store_with_two_sunsets "trip")))
                      4 _ _ _ _ _) _) _).
  - by_computation.
  - intros sd' Hin. now apply elem_of_nil in Hin.
  - by_computation.
  - by_computation.
  - by_computation.
  - reflexivity.
  - by_computation.
Defined.

(** X6: the identifier an accepted booking returns is one [oid] accepts,
    and it parses back to the identifier under which the submission,
    dumped, is now the last document of the booking collection. *)
Theorem booking_id_parses_back
    (payload : Booking.t) (db db' : Store) (response : Document) :
  create_booking payload db = (inr response, db') →
  ∃ s sd,
    response !! "id" = Some (VStr s)
    ∧ last (collection db' "booking") = Some sd
    ∧ doc_fields sd = Booking.model_dump payload
    ∧ oid s = inr (doc_id sd).
Proof.
  rewrite create_booking_unfold.
  destruct (find_one db "trip" (booking_filter payload)) as [trip |];
    [| discriminate].
  destruct (py_gt _ _) as [e' | []]; [discriminate | |].
  { destruct (py_str _); discriminate. }
  intros [= <- <-].
  exists (ObjectId_str (generate_id (next_id db))),
         (mkStored (generate_id (next_id db)) (Booking.model_dump payload)).
  split; [reflexivity |]. split; [| split; [reflexivity |]].
  - pose proof (collection_insert_one db "booking" "booking"
                  (Booking.model_dump payload)) as Hc.
    rewrite decide_True in Hc by reflexivity.
    transitivity (last (collection db "booking"
                          ++ [mkStored (generate_id (next_id db))
                                (Booking.model_dump payload)]));
      [apply (f_equal last), Hc | apply last_snoc].
  - apply oid_of_generated.
Qed.

Lemma booking_id_parses_back_witness :
  ∃ s sd,
    (create_booking (sample_booking "sunset" 10) seeded_store).1
      = inr (list_to_map [("status", VStr "received"); ("id", VStr s)])
    ∧ last (collection (create_booking (sample_booking "sunset" 10) seeded_store).2
              "booking") = Some sd
    ∧ oid s = inr (doc_id sd).
Proof.
  destruct (booking_id_parses_back (sample_booking "sunset" 10) seeded_store
              (create_booking (sample_booking "sunset" 10) seeded_store).2
              (list_to_map [("status", VStr "received");
                            ("id", VStr "000000000000000000000006")]))
    as (s & sd & Hid & Hlast & _ & Hoid).
  - by_computation.
  - exists s, sd. split; [| split; assumption].
    assert (Hs : s = "000000000000000000000006").
    { assert (H6 : (list_to_map [("status", VStr "received");
                                 ("id", VStr "000000000000000000000006")]
                      : Document) !! "id"
                   = Some (VStr "000000000000000000000006")) by by_computation.
      rewrite H6 in Hid. now injection Hid. }
    rewrite Hs. by_computation.
Defined.

(** ** The listings, and the handlers that only store *)

Lemma to_dict_lookup (sd : StoredDoc) (k : string) :
  k ≠ "_id" → to_dict sd !! k = doc_fields sd !! k.
Proof. intros Hk. unfold to_dict. now rewrite lookup_insert_ne. Qed.

Lemma rendered_stored (o : ObjectId) (d : Document) :
  rendered (mkStored o d) = <["_id" := VStr (ObjectId_str o)]> d.
Proof. unfold rendered, to_dict. cbn [doc_id doc_fields]. apply insert_insert_eq. Qed.

(** X7: [get_trips] never fails and never writes; it returns one
    document per stored trip, active or not, in store order, each with
    the fields as stored and only [_id] replaced by its rendering. *)
Theorem get_trips_lists_every_trip (db : Store) :
  ∃ trips,
    get_trips db = (inr trips, db)
    ∧ length trips = length (collection db "trip")
    ∧ ∀ (i : nat) (sd : StoredDoc),
        collection db "trip" !! i = Some sd →
        ∃ t, trips !! i = Some t
             ∧ t !! "_id" = Some (VStr (ObjectId_str (doc_id sd)))
             ∧ ∀ k, k ≠ "_id" → t !! k = doc_fields sd !! k.
Proof.
  exists (rendered <$> collection db "trip").
  split; [apply get_trips_returns |]. split; [apply length_fmap |].
  intros i sd Hi. exists (rendered sd).
  split; [now rewrite list_lookup_fmap, Hi |].
  split; [apply rendered_id |].
  intros k Hk. now rewrite rendered_lookup, to_dict_lookup.
Qed.

(** X8: [get_reviews] never fails and never writes; it returns the
    first 50 reviews in store order and no more, all of them when 50 or
    fewer are stored. *)
Theorem get_reviews_first_fifty (db : Store) :
  ∃ reviews,
    get_reviews db = (inr reviews, db)
    ∧ reviews = rendered <$> take 50 (collection db "review")
    ∧ length reviews = Nat.min 50 (length (collection db "review"))
    ∧ (length reviews ≤ 50)%nat.
Proof.
  exists (rendered <$> take 50 (collection db "review")).
  split; [apply get_reviews_returns |]. split; [reflexivity |].
  rewrite length_fmap, length_take. split; lia.
Qed.

Lemma add_review_unfold (payload : Review.t) (db : Store) :
  add_review payload db =
    (inr (list_to_map [("status", VStr "received");
                       ("id", VStr (ObjectId_str (generate_id (next_id db))))]),
     (insert_one db "review" (Review.model_dump payload)).2).
Proof. reflexivity. Qed.

Lemma reviews_after_add_review (payload : Review.t) (db : Store) :
  collection (add_review payload db).2 "review" =
    collection db "review"
      ++ [mkStored (generate_id (next_id db)) (Review.model_dump payload)].
Proof.
  rewrite add_review_unfold. cbn [snd].
  now rewrite collection_insert_one, decide_True.
Qed.

(** X9: a review added while fewer than 50 are stored is listed: after
    [add_review], which always succeeds, [get_reviews] returns what it
    returned before followed by the new review, its fields as dumped and
    its [_id] the identifier [add_review] returned. *)
Theorem add_review_then_listed (payload : Review.t) (db : Store) :
  (length (collection db "review") < 50)%nat →
  ∃ review_id before,
    (add_review payload db).1
      = inr (list_to_map [("status", VStr "received"); ("id", VStr review_id)])
    ∧ (get_reviews db).1 = inr before
    ∧ (get_reviews (add_review payload db).2).1
      = inr (before ++ [<["_id" := VStr review_id]> (Review.model_dump payload)]).
Proof.
  intros Hlen.
  exists (ObjectId_str (generate_id (next_id db))),
         (rendered <$> collection db "review").
  split; [reflexivity |]. rewrite !get_reviews_returns. cbn [fst].
  rewrite reviews_after_add_review. split.
  - now rewrite take_ge by lia.
  - rewrite take_ge by (rewrite length_app; cbn [length]; lia).
    now rewrite fmap_app, fmap_cons, rendered_stored.
Qed.

Lemma add_review_then_listed_witness :
  ∃ review_id before,
    (add_review (sample_review 4) (store_with_reviews 2)).1
      = inr (list_to_map [("status", VStr "received"); ("id", VStr review_id)])
    ∧ (get_reviews (store_with_reviews 2)).1 = inr before
    ∧ (get_reviews (add_review (sample_review 4) (store_with_reviews 2)).2).1
      = inr (before
               ++ [<["_id" := VStr review_id]> (Review.model_dump (sample_review 4))]).
Proof.
  apply (add_review_then_listed (sample_review 4) (store_with_reviews 2)).
  apply Nat.ltb_lt. by_computation.
Defined.

(** X10: a review added when 50 or more are stored is stored but not
    listed: [add_review] succeeds and the review collection grows, yet
    [get_reviews] returns exactly what it returned before. *)
Theorem add_review_beyond_fifty_not_listed (payload : Review.t) (db : Store) :
  (50 ≤ length (collection db "review"))%nat →
  (∃ response, (add_review payload db).1 = inr response)
  ∧ length (collection (add_review payload db).2 "review")
    = S (length (collection db "review"))
  ∧ (get_reviews (add_review payload db).2).1 = (get_reviews db).1.
Proof.
  intros Hlen. split; [eexists; reflexivity |].
  rewrite !get_reviews_returns. cbn [fst].
  rewrite reviews_after_add_review. split.
  - rewrite length_app. cbn [length]. lia.
  - now rewrite take_app_le by lia.
Qed.

Lemma add_review_beyond_fifty_not_listed_witness :
  length (collection (add_review (sample_review 4) (store_with_reviews 50)).2
            "review") = 51%nat
  ∧ (get_reviews (add_review (sample_review 4) (store_with_reviews 50)).2).1
    = (get_reviews (store_with_reviews 50)).1.
Proof.
  destruct (add_review_beyond_fifty_not_listed (sample_review 4)
              (store_with_reviews 50)) as (_ & Hlen & Hsame).
  - apply Nat.leb_le. by_computation.
  - split; [| exact Hsame]. rewrite Hlen. by_computation.
Defined.

Lemma get_faqs_depends_on_collection (db db' : Store) :
  collection db' "faq" = collection db "faq" →
  (get_faqs db').1 = (get_faqs db).1.
Proof. intros H. rewrite !get_faqs_sorts_fetched. cbn [fst]. now rewrite H. Qed.

(** X11: [create_inquiry] always succeeds; it appends the dumped inquiry
    to the inquiry collection under a new identifier, which it returns
    rendered, and touches no other collection, so that the three
    listings answer as before. *)
Theorem create_inquiry_stores_and_keeps_the_rest
    (payload : Inquiry.t) (db : Store) :
  let after := (create_inquiry payload db).2 in
  (create_inquiry payload db).1
    = inr (list_to_map [("status", VStr "received");
                        ("id", VStr (ObjectId_str (generate_id (next_id db))))])
  ∧ collection after "inquiry"
    = collection db "inquiry"
        ++ [mkStored (generate_id (next_id db)) (Inquiry.model_dump payload)]
  ∧ (∀ name, name ≠ "inquiry" → collection after name = collection db name)
  ∧ (get_trips after).1 = (get_trips db).1
  ∧ (get_faqs after).1 = (get_faqs db).1
  ∧ (get_reviews after).1 = (get_reviews db).1.
Proof.
  intros after.
  assert (Hother : ∀ name, name ≠ "inquiry" →
                     collection after name = collection db name).
  { intros name Hname. unfold after, create_inquiry.
    rewrite run_update. cbn [mret handler_ret snd create_document fst].
    now rewrite collection_insert_one, decide_False by congruence. }
  split; [reflexivity |]. split; [| split; [exact Hother |]].
  - unfold after, create_inquiry.
    rewrite run_update. cbn [mret handler_ret snd create_document fst].
    now rewrite collection_insert_one, decide_True.
  - rewrite !get_trips_returns, !get_reviews_returns. cbn [fst].
    rewrite !Hother by discriminate.
    split; [reflexivity |]. split; [| reflexivity].
    apply get_faqs_depends_on_collection, Hother. discriminate.
Qed.

(** ** Seeding, then booking *)

Lemma seed_trips_when_empty (db : Store) :
  collection db "trip" = [] →
  collection (seed db).2 "trip" = stored_from (next_id db) seed_trip_docs.
Proof.
  intros Hempty. rewrite seed_steps, Hempty. cbv zeta. cbn [snd].
  set (db1 := insert_many db "trip" seed_trip_docs).
  assert (H1 : collection db1 "trip" = stored_from (next_id db) seed_trip_docs).
  { unfold db1.
    rewrite collection_insert_many, decide_True, Hempty by reflexivity.
    reflexivity. }
  destruct (collection db1 "faq");
    [rewrite collection_insert_many, decide_False by discriminate |];
    exact H1.
Qed.

Lemma seed_trip_docs_fields :
  ∃ t1 t2,
    seed_trip_docs = [t1; t2]
    ∧ t1 !! "trip_type" = Some (VStr "dimaniyat")
    ∧ t1 !! "is_active" = Some (VBool true)
    ∧ t1 !! "capacity" = Some (VInt 20)
    ∧ t2 !! "trip_type" = Some (VStr "sunset")
    ∧ t2 !! "is_active" = Some (VBool true)
    ∧ t2 !! "capacity" = Some (VInt 10).
Proof.
  exists (default ∅ (seed_trip_docs !! 0%nat)),
         (default ∅ (seed_trip_docs !! 1%nat)).
  repeat split; by_computation.
Qed.

Lemma capacity_message_20 :
  "Maximum capacity is " +:+ pretty 20 +:+ " for this trip"
    = "Maximum capacity is 20 for this trip".
Proof. by_computation. Qed.

Lemma capacity_message_10 :
  "Maximum capacity is " +:+ pretty 10 +:+ " for this trip"
    = "Maximum capacity is 10 for this trip".
Proof. by_computation. Qed.

Lemma booking_against_found (payload : Booking.t) (db : Store)
    (trip : Document) (C : Z) :
  find_one db "trip" (booking_filter payload) = Some trip →
  trip !! "capacity" = Some (VInt C) →
  (Booking.people_count payload ≤ C →
   ∃ response db', create_booking payload db = (inr response, db'))
  ∧ (C < Booking.people_count payload →
     create_booking payload db =
       (inl (HTTPException 400
               ("Maximum capacity is " +:+ pretty C +:+ " for this trip")), db)).
Proof.
  intros Hfind Hcap. rewrite create_booking_unfold, Hfind.
  unfold dict_get, py_gt. rewrite Hcap. cbn [default from_option id].
  rewrite py_lt_int. split.
  - intros Hle%Z.ltb_ge. rewrite Hle. eauto.
  - intros Hlt%Z.ltb_lt. now rewrite Hlt.
Qed.

(** X12: on a store whose trip collection is empty, a run of [seed]
    makes exactly two trips bookable: a booking for "dimaniyat" is
    accepted up to 20 people and refused beyond, naming 20; one for
    "sunset" up to 10, naming 10; one for any other trip type ends in
    the 404 error. *)
Theorem booking_after_seed (payload : Booking.t) (db : Store) :
  collection db "trip" = [] →
  let seeded := (seed db).2 in
  (Booking.trip_type payload = "dimaniyat" →
     (Booking.people_count payload ≤ 20 →
        ∃ response db', create_booking payload seeded = (inr response, db'))
     ∧ (20 < Booking.people_count payload →
        create_booking payload seeded =
          (inl (HTTPException 400 "Maximum capacity is 20 for this trip"), seeded)))
  ∧ (Booking.trip_type payload = "sunset" →
     (Booking.people_count payload ≤ 10 →
        ∃ response db', create_booking payload seeded = (inr response, db'))
     ∧ (10 < Booking.people_count payload →
        create_booking payload seeded =
          (inl (HTTPException 400 "Maximum capacity is 10 for this trip"), seeded)))
  ∧ (Booking.trip_type payload ≠ "dimaniyat" →
     Booking.trip_type payload ≠ "sunset" →
     create_booking payload seeded =
       (inl (HTTPException 404 "Trip not found"), seeded)).
Proof.
  intros Hempty seeded.
  destruct seed_trip_docs_fields
    as (t1 & t2 & Hdocs & Htype1 & Hact1 & Hcap1 & Htype2 & Hact2 & Hcap2).
  pose proof (seed_trips_when_empty db Hempty) as Hcoll.
  fold seeded in Hcoll. rewrite Hdocs in Hcoll. cbn [stored_from] in Hcoll.
  set (sd1 := mkStored (generate_id (next_id db)) t1) in Hcoll.
  set (sd2 := mkStored (generate_id (N.succ (next_id db))) t2) in Hcoll.
  assert (H1 : ∀ k, k ≠ "_id" → to_dict sd1 !! k = t1 !! k)
    by (intros k Hk; now rewrite to_dict_lookup).
  assert (H2 : ∀ k, k ≠ "_id" → to_dict sd2 !! k = t2 !! k)
    by (intros k Hk; now rewrite to_dict_lookup).
  split; [| split].
  - intros Htype.
    assert (Hfind : find_one seeded "trip" (booking_filter payload)
                    = Some (to_dict sd1)).
    { apply (find_one_first_match _ _ _ [] [sd2]); [exact Hcoll | |].
      - intros sd' Hin. now apply elem_of_nil in Hin.
      - apply matches_booking_filter.
        rewrite !H1, Htype by discriminate. now split. }
    rewrite <- capacity_message_20.
    apply (booking_against_found payload seeded (to_dict sd1) 20 Hfind).
    now rewrite H1 by discriminate.
  - intros Htype.
    assert (Hfind : find_one seeded "trip" (booking_filter payload)
                    = Some (to_dict sd2)).
    { apply (find_one_first_match _ _ _ [sd1] []); [exact Hcoll | |].
      - intros sd' Hin. apply list_elem_of_singleton in Hin as ->.
        apply not_true_is_false. rewrite matches_booking_filter.
        rewrite !H1, Htype, Htype1 by discriminate. intros [[=] _].
      - apply matches_booking_filter.
        rewrite !H2, Htype by discriminate. now split. }
    rewrite <- capacity_message_10.
    apply (booking_against_found payload seeded (to_dict sd2) 10 Hfind).
    now rewrite H2 by discriminate.
  - intros Hn1 Hn2. apply create_booking_lookup_None, find_one_booking_None.
    intros sd Hin [Htype _]. rewrite Hcoll in Hin.
    apply elem_of_cons in Hin as [-> | Hin].
    + rewrite H1, Htype1 in Htype by discriminate. congruence.
    + apply list_elem_of_singleton in Hin as ->.
      rewrite H2, Htype2 in Htype by discriminate. congruence.
Qed.

Lemma booking_after_seed_witness :
  create_booking (sample_booking "dimaniyat" 21) (seed empty_store).2 =
    (inl (HTTPException 400 "Maximum capacity is 20 for this trip"),
     (seed empty_store).2).
Proof.
  apply (booking_after_seed (sample_booking "dimaniyat" 21) empty_store).
  - by_computation.
  - reflexivity.
  - reflexivity.
Defined.

(** ** The FAQ listing on documents of the schema *)

Lemma faq_dump_typed (f : FAQ.t) (sd : StoredDoc) :
  doc_fields sd = FAQ.model_dump f →
  faq_typed (to_dict sd) = true
  ∧ faq_sort_key (rendered sd) = (FAQ.order f, FAQ.question f).
Proof.
  intros Hf.
  assert (Ho : to_dict sd !! "order" = Some (VInt (FAQ.order f))).
  { rewrite to_dict_lookup, Hf by discriminate. reflexivity. }
  assert (Hq : to_dict sd !! "question" = Some (VStr (FAQ.question f))).
  { rewrite to_dict_lookup, Hf by discriminate. reflexivity. }
  split.
  - unfold faq_typed. now rewrite Ho, Hq.
  - unfold faq_sort_key, faq_order, faq_question.
    now rewrite !rendered_lookup, Ho, Hq by discriminate.
Qed.

(** X13: when the FAQ documents fetched are dumps of [FAQ] objects of
    the schema, [get_faqs] cannot fail: it returns them all, identifiers
    rendered, in ascending order of [(order, question)]. *)
Theorem get_faqs_of_schema_documents (db : Store) :
  Forall (λ sd, ∃ f : FAQ.t, doc_fields sd = FAQ.model_dump f)
    (take 100 (collection db "faq")) →
  ∃ faqs,
    get_faqs db = (inr faqs, db)
    ∧ faqs ≡ₚ rendered <$> take 100 (collection db "faq")
    ∧ StronglySorted faq_le faqs.
Proof.
  intros Hschema.
  exists (stable_sort faq_ltb (rendered <$> take 100 (collection db "faq"))).
  split; [| split].
  - rewrite get_faqs_sorts_fetched, list_sort_typed; [reflexivity |].
    eapply Forall_impl; [exact Hschema |].
    intros sd [f Hf]. now apply (faq_dump_typed f).
  - apply stable_sort_perm.
  - eapply StronglySorted_weaken; [| apply stable_sort_sorted].
    + intros a b. apply faq_le_iff.
    + apply faq_ltb_asym.
    + apply faq_geb_trans.
Qed.

Lemma get_faqs_of_schema_documents_witness :
  ∃ faqs,
    get_faqs store_with_schema_faqs = (inr faqs, store_with_schema_faqs)
    ∧ faqs ≡ₚ rendered <$> take 100 (collection store_with_schema_faqs "faq")
    ∧ StronglySorted faq_le faqs.
Proof.
  apply (get_faqs_of_schema_documents store_with_schema_faqs).
  assert (H : take 100 (collection store_with_schema_faqs "faq")
              = stored_from 0
                  [FAQ.model_dump (FAQ.init "Do you sail in winter?" "Yes."
                                     (Some None) (Some 2));
                   FAQ.model_dump (FAQ.init "Is lunch served?" "On day trips."
                                     None None)]) by by_computation.
  rewrite H. cbn [stored_from].
  repeat constructor; eexists; reflexivity.
Defined.

(** ** The FAQ listing does not depend on the store order of distinct keys *)

Section SortedPermutation.

Context {A : Type} (le : A → A → Prop).

Lemma sorted_permutation_unique (l1 l2 : list A) :
  (∀ a b, a ∈ l1 → b ∈ l1 → le a b → le b a → a = b) →
  StronglySorted le l1 → StronglySorted le l2 → l1 ≡ₚ l2 → l1 = l2.
Proof.
  intros Hanti Hs1. revert l2.
  induction Hs1 as [| a l1 Hs1 IH Ha]; intros l2 Hs2 Hperm.
  - now apply Permutation_nil in Hperm.
  - destruct Hs2 as [| b l2 Hs2 Hb].
    { symmetry in Hperm. now apply Permutation_nil in Hperm. }
    assert (Hab : a = b).
    { assert (Hain : a ∈ b :: l2) by (rewrite <- Hperm; left).
      assert (Hbin : b ∈ a :: l1) by (rewrite Hperm; left).
      apply elem_of_cons in Hain as [Hain | Hain]; [exact Hain |].
      apply elem_of_cons in Hbin as [Hbin | Hbin]; [now symmetry |].
      rewrite Forall_forall in Ha, Hb.
      apply Hanti; [left | now right | now apply Ha | now apply Hb]. }
    subst b. f_equal. apply IH.
    + intros x y Hx Hy. apply Hanti; now right.
    + exact Hs2.
    + now apply Permutation_cons_inv in Hperm.
Qed.

End SortedPermutation.

Lemma NoDup_fmap_eq {A B : Type} (f : A → B) (l : list A) (a b : A) :
  NoDup (f <$> l) → a ∈ l → b ∈ l → f a = f b → a = b.
Proof.
  induction l as [| x l IH]; intros Hnd Ha Hb Hf.
  - now apply elem_of_nil in Ha.
  - rewrite fmap_cons in Hnd. apply NoDup_cons in Hnd as [Hx Hnd].
    apply elem_of_cons in Ha as [-> | Ha]; apply elem_of_cons in Hb as [-> | Hb].
    + reflexivity.
    + exfalso. apply Hx. rewrite Hf. now apply list_elem_of_fmap_2.
    + exfalso. apply Hx. rewrite <- Hf. now apply list_elem_of_fmap_2.
    + now apply IH.
Qed.

Lemma faq_ltb_both_false (a b : Document) :
  faq_ltb b a = false → faq_ltb a b = false → faq_sort_key a = faq_sort_key b.
Proof.
  unfold faq_ltb, faq_compare. intros Hba Hab.
  apply key_compare_eq.
  destruct (key_compare (faq_sort_key a) (faq_sort_key b)) eqn:Hc;
    [reflexivity | discriminate |].
  apply key_compare_flip in Hc. rewrite Hc in Hba. discriminate.
Qed.

(** X14: with at most 100 FAQ documents stored, their keys typed and
    pairwise different, the listing does not depend on the order in
    which the store holds them: two stores whose FAQ collections are
    permutations of each other get the same answer from [get_faqs]. *)
Theorem get_faqs_ignores_store_order (db1 db2 : Store) :
  collection db1 "faq" ≡ₚ collection db2 "faq" →
  (length (collection db1 "faq") ≤ 100)%nat →
  Forall (λ sd, faq_typed (to_dict sd) = true) (collection db1 "faq") →
  NoDup ((λ sd, faq_sort_key (to_dict sd)) <$> collection db1 "faq") →
  ∃ faqs, (get_faqs db1).1 = inr faqs ∧ (get_faqs db2).1 = inr faqs.
Proof.
  intros Hperm Hlen Htyped Hkeys.
  assert (Hlen2 : (length (collection db2 "faq") ≤ 100)%nat)
    by now rewrite <- Hperm.
  assert (Htyped2 : Forall (λ sd, faq_typed (to_dict sd) = true)
                      (collection db2 "faq")) by now rewrite <- Hperm.
  exists (stable_sort faq_ltb (rendered <$> collection db1 "faq")).
  rewrite !get_faqs_sorts_fetched. cbn [fst].
  rewrite !take_ge by lia. rewrite !list_sort_typed by assumption.
  split; [reflexivity |]. f_equal. symmetry.
  apply (sorted_permutation_unique (λ a b, faq_ltb b a = false)).
  - intros a b Ha Hb Hab Hba.
    rewrite (stable_sort_perm faq_ltb) in Ha, Hb.
    apply list_elem_of_fmap in Ha as (sa & -> & Ha).
    apply list_elem_of_fmap in Hb as (sb & -> & Hb).
    f_equal. apply (NoDup_fmap_eq _ _ _ _ Hkeys Ha Hb).
    pose proof (faq_ltb_both_false _ _ Hab Hba) as Hk.
    unfold faq_sort_key, faq_order, faq_question in Hk |- *.
    now rewrite !rendered_lookup in Hk by discriminate.
  - apply stable_sort_sorted; [apply faq_ltb_asym | apply faq_geb_trans].
  - apply stable_sort_sorted; [apply faq_ltb_asym | apply faq_geb_trans].
  - rewrite !stable_sort_perm. now apply fmap_Permutation.
Qed.

Lemma get_faqs_ignores_store_order_witness :
  ∃ faqs,
    (get_faqs store_with_five_faqs).1 = inr faqs
    ∧ (get_faqs store_with_five_faqs_reversed).1 = inr faqs.
Proof.
  apply (get_faqs_ignores_store_order store_with_five_faqs
           store_with_five_faqs_reversed).
  - assert (H : collection store_with_five_faqs_reversed "faq"
                = rev (collection store_with_five_faqs "faq")) by by_computation.
    rewrite H. apply Permutation_rev.
  - apply Nat.leb_le. by_computation.
  - apply faq_typed_check. by_computation.
  - apply (bool_decide_unpack _). vm_compute. exact I.
Defined.

(** ** The diagnostic *)

Lemma str_slice_prefix (n : nat) (s : string) :
  ∃ rest, s = str_slice n s +:+ rest.
Proof.
  revert n. induction s as [| c s IH]; intros n; cbn [str_slice].
  - now exists EmptyString.
  - destruct (is_continuation c).
    + destruct (IH n) as [rest Hrest]. exists rest.
      change (String c s = String c (str_slice n s +:+ rest)). now f_equal.
    + destruct n as [| n].
      * now exists (String c s).
      * destruct (IH n) as [rest Hrest]. exists rest.
        change (String c s = String c (str_slice n s +:+ rest)). now f_equal.
Qed.

Lemma str_len_slice (n : nat) (s : string) :
  str_len (str_slice n s) = Nat.min n (str_len s).
Proof.
  revert n. induction s as [| c s IH]; intros n; cbn [str_slice str_len].
  - now rewrite Nat.min_0_r.
  - destruct (is_continuation c) eqn:Hc.
    + cbn [str_len]. now rewrite Hc, IH.
    + destruct n as [| n]; [reflexivity |].
      cbn [str_len]. now rewrite Hc, IH.
Qed.

Ltac read_response :=
  unfold test_database;
  repeat match goal with
         | H : handle_name _ = _ |- _ => rewrite H
         | H : handle_collection_names _ = _ |- _ => rewrite H
         end;
  cbv zeta;
  repeat first [ rewrite lookup_insert_eq | rewrite lookup_insert_ne by discriminate ];
  try reflexivity.

(** X15: the diagnostic reports at most ten collections: the first ten
    names the handle lists, in its order, when it has a handle that
    answers; none when there is no handle, or when asking the handle for
    its name or for its collections raises. *)
Theorem test_database_lists_at_most_ten
    (db : option Handle) (DATABASE_URL : option string) :
  ∃ names,
    test_database db DATABASE_URL !! "collections" = Some (str_list names)
    ∧ (length names ≤ 10)%nat
    ∧ names = match db with
              | Some h =>
                  match handle_name h, handle_collection_names h with
                  | inr _, inr all => take 10 all
                  | _, _ => []
                  end
              | None => []
              end.
Proof.
  destruct db as [h |].
  - destruct (handle_name h) as [e | name] eqn:Hname.
    + exists []. split; [read_response |]. split; [cbn; lia | reflexivity].
    + destruct (handle_collection_names h) as [e | all] eqn:Hall.
      * exists []. split; [read_response |]. split; [cbn; lia | reflexivity].
      * exists (take 10 all). split; [read_response |].
        split; [rewrite length_take; lia | reflexivity].
  - exists []. split; [read_response |]. split; [cbn; lia | reflexivity].
Qed.

(** X16: when the handle answers its name but listing its collections
    raises, the diagnostic still returns: it reports "Connected", no
    collections, and under [database] the text "⚠️  Connected but
    Error: " followed by the first 50 characters of the exception's
    message, the whole message when it is shorter. *)
Theorem test_database_error_is_cut
    (h : Handle) (DATABASE_URL : option string) (name : option string)
    (e : string) :
  handle_name h = inr name →
  handle_collection_names h = inl e →
  let response := test_database (Some h) DATABASE_URL in
  ∃ shown rest,
    response !! "database"
      = Some (VStr ("⚠️  Connected but Error: " +:+ shown))
    ∧ e = shown +:+ rest
    ∧ str_len shown = Nat.min 50 (str_len e)
    ∧ response !! "connection_status" = Some (VStr "Connected")
    ∧ response !! "collections" = Some (VList []).
Proof.
  intros Hname Hall response. unfold response.
  destruct (str_slice_prefix 50 e) as [rest Hrest].
  exists (str_slice 50 e), rest.
  split; [read_response |]. split; [exact Hrest |].
  split; [apply str_len_slice |]. split; read_response.
Qed.

Lemma test_database_error_is_cut_witness :
  ∃ shown rest,
    test_database (Some handle_that_cannot_list) None !! "database"
      = Some (VStr ("⚠️  Connected but Error: " +:+ shown))
    ∧ "localhost:27017: [Errno 111] Connection refused, Timeout: 30s, Topology Description: unknown"
      = shown +:+ rest
    ∧ str_len shown = 50%nat.
Proof.
  destruct (test_database_error_is_cut handle_that_cannot_list None
              (Some "tours")
              "localhost:27017: [Errno 111] Connection refused, Timeout: 30s, Topology Description: unknown"
              eq_refl eq_refl)
    as (shown & rest & Hdb & Hsplit & Hlen & _).
  exists shown, rest. split; [exact Hdb |]. split; [exact Hsplit |].
  rewrite Hlen. by_computation.
Defined.

(** X17: the diagnostic always reports the backend as running, and it
    reports "Connected" exactly when there is a handle that answers its
    name: also when listing the collections then fails, and not when
    asking for the name raises. *)
Theorem test_database_connection_status
    (db : option Handle) (DATABASE_URL : option string) :
  test_database db DATABASE_URL !! "backend" = Some (VStr "✅ Running")
  ∧ (test_database db DATABASE_URL !! "connection_status"
       = Some (VStr "Connected")
     ↔ ∃ h name, db = Some h ∧ handle_name h = inr name)
  ∧ (test_database db DATABASE_URL !! "connection_status"
       = Some (VStr "Connected")
     ∨ test_database db DATABASE_URL !! "connection_status"
       = Some (VStr "Not Connected")).
Proof.
  destruct db as [h |].
  - destruct (handle_name h) as [e | name] eqn:Hname.
    + assert (Hs : test_database (Some h) DATABASE_URL !! "connection_status"
                   = Some (VStr "Not Connected")) by read_response.
      split; [read_response |]. rewrite Hs. split; [| now right].
      split; [discriminate |]. intros (h' & name & [= <-] & Hn). congruence.
    + assert (Hs : test_database (Some h) DATABASE_URL !! "connection_status"
                   = Some (VStr "Connected")).
      { destruct (handle_collection_names h) eqn:Hall; read_response. }
      split; [destruct (handle_collection_names h) eqn:Hall; read_response |].
      rewrite Hs. split; [| now left]. split; [eauto | reflexivity].
  - split; [read_response |].
    assert (Hs : test_database None DATABASE_URL !! "connection_status"
                 = Some (VStr "Not Connected")) by read_response.
    rewrite Hs. split; [| now right].
    split; [discriminate |]. intros (h' & name & [=] & _).
Qed.

(** ** A FAQ collection stored in order *)

Lemma stable_sort_sorted_id {A : Type} (ltb : A → A → bool) (l : list A) :
  StronglySorted (λ a b, ltb b a = false) l → stable_sort ltb l = l.
Proof.
  induction 1 as [| x l Hs IH Hx]; [reflexivity |].
  cbn [stable_sort]. rewrite IH.
  destruct l as [| y l]; [reflexivity |].
  cbn [insert_by]. apply Forall_cons in Hx as [Hxy _]. now rewrite Hxy.
Qed.

Lemma faq_sort_key_rendered (sd : StoredDoc) :
  faq_sort_key (rendered sd) = faq_sort_key (to_dict sd).
Proof.
  unfold faq_sort_key, faq_order, faq_question.
  now rewrite !rendered_lookup by discriminate.
Qed.

Lemma faq_ltb_rendered (a b : StoredDoc) :
  faq_ltb (rendered a) (rendered b) = faq_ltb (to_dict a) (to_dict b).
Proof. unfold faq_ltb, faq_compare. now rewrite !faq_sort_key_rendered. Qed.

Lemma sorted_rendered (l : list StoredDoc) :
  StronglySorted faq_le (to_dict <$> l) →
  StronglySorted (λ a b, faq_ltb b a = false) (rendered <$> l).
Proof.
  induction l as [| sd l IH]; intros Hs; [constructor |].
  rewrite fmap_cons in Hs. apply StronglySorted_inv in Hs as [Hs Hhd].
  rewrite fmap_cons. constructor; [now apply IH |].
  rewrite Forall_fmap in Hhd |- *.
  eapply Forall_impl; [exact Hhd |]. intros sd' Hle. unfold compose in Hle |- *.
  rewrite faq_ltb_rendered. now apply faq_le_iff.
Qed.

Lemma get_faqs_sorted_input (db : Store) :
  Forall (λ sd, faq_typed (to_dict sd) = true) (take 100 (collection db "faq")) →
  StronglySorted faq_le (to_dict <$> take 100 (collection db "faq")) →
  get_faqs db = (inr (rendered <$> take 100 (collection db "faq")), db).
Proof.
  intros Htyped Hsorted.
  rewrite get_faqs_sorts_fetched, list_sort_typed by exact Htyped.
  now rewrite stable_sort_sorted_id by now apply sorted_rendered.
Qed.

(** X18: a FAQ collection that is stored in the order of the listing is
    listed in store order: when the documents fetched have typed keys
    and are already ascending by [(order, question)], ties included,
    [get_faqs] returns them as stored, identifiers rendered. *)
Theorem get_faqs_keeps_sorted_store_order (db : Store) :
  let fetched := take 100 (collection db "faq") in
  Forall (λ sd, faq_typed (to_dict sd) = true) fetched →
  StronglySorted faq_le (to_dict <$> fetched) →
  get_faqs db = (inr (rendered <$> fetched), db).
Proof. intros fetched. apply get_faqs_sorted_input. Qed.

Lemma sorted_by_check (l : list Document) :
  stable_sort faq_ltb l = l → StronglySorted faq_le l.
Proof.
  intros <-. eapply StronglySorted_weaken; [| apply stable_sort_sorted].
  - intros a b. apply faq_le_iff.
  - apply faq_ltb_asym.
  - apply faq_geb_trans.
Qed.

Lemma get_faqs_keeps_sorted_store_order_witness :
  get_faqs seeded_store
    = (inr (rendered <$> take 100 (collection seeded_store "faq")), seeded_store).
Proof.
  apply (get_faqs_keeps_sorted_store_order seeded_store).
  - apply faq_typed_check. by_computation.
  - apply sorted_by_check. by_computation.
Defined.

(** ** The schema's bound on [people_count], at the booking *)

Lemma booking_init_people_count
    (trip_type name email phone : string) (date : Z * Z * Z)
    (people_count : Z) (notes status : option string) (payload : Booking.t) :
  Booking.init trip_type name email phone date people_count notes status
    = inr payload →
  1 ≤ Booking.people_count payload.
Proof.
  unfold Booking.init. destruct (1 <=? people_count) eqn:Hle; [| discriminate].
  intros [= <-]. cbn. now apply Z.leb_le.
Qed.

(** X19: a booking that the schema let through asks for one person at
    least, so it is never accepted against a trip whose capacity is
    missing or is an integer below 1: [create_booking] raises the 400
    error and writes nothing. *)
Theorem schema_booking_needs_positive_capacity
    (trip_type name email phone : string) (date : Z * Z * Z)
    (people_count : Z) (notes status : option string)
    (payload : Booking.t) (db : Store) (trip : Document) :
  Booking.init trip_type name email phone date people_count notes status
    = inr payload →
  find_one db "trip" (booking_filter payload) = Some trip →
  (trip !! "capacity" = None
   ∨ ∃ C, trip !! "capacity" = Some (VInt C) ∧ C < 1) →
  ∃ detail, create_booking payload db = (inl (HTTPException 400 detail), db).
Proof.
  intros Hinit%booking_init_people_count Hfind [Hcap | (C & Hcap & HC)].
  - eexists. exact (create_booking_missing_capacity payload db trip Hfind Hcap Hinit).
  - eexists. apply (booking_against_found payload db trip C Hfind Hcap). lia.
Qed.

Lemma schema_booking_needs_positive_capacity_witness :
  ∃ detail,
    create_booking (sample_booking "sunset" 1) store_without_capacity
      = (inl (HTTPException 400 detail), store_without_capacity).
Proof.
  apply (schema_booking_needs_positive_capacity "sunset" "Asma"
           "asma@example.com" "+968 9000 0000" (2026, 1, 15) 1 None None
           (sample_booking "sunset" 1) store_without_capacity
           (default ∅ (find_one store_without_capacity "trip"
                         (booking_filter (sample_booking "sunset" 1))))).
  - reflexivity.
  - by_computation.
  - left. by_computation.
Defined.

(** ** Seeding, then listing *)

Lemma seed_faqs_when_empty (db : Store) :
  collection db "faq" = [] →
  ∃ n, collection (seed db).2 "faq" = stored_from n seed_faqs.
Proof.
  intros Hempty. rewrite seed_steps. cbv zeta. cbn [snd].
  destruct (collection db "trip") as [| sd trips] eqn:Htrips.
  - set (db1 := insert_many db "trip" seed_trip_docs).
    assert (H1 : collection db1 "faq" = []).
    { unfold db1.
      now rewrite collection_insert_many, decide_False, Hempty by discriminate. }
    rewrite H1. exists (next_id db1).
    now rewrite collection_insert_many, decide_True, H1 by reflexivity.
  - rewrite Hempty. exists (next_id db).
    now rewrite collection_insert_many, decide_True, Hempty by reflexivity.
Qed.

Lemma to_dict_stored_key (o : ObjectId) (d : Document) :
  faq_sort_key (to_dict (mkStored o d)) = faq_sort_key d
  ∧ faq_typed (to_dict (mkStored o d)) = faq_typed d.
Proof.
  unfold faq_sort_key, faq_order, faq_question, faq_typed.
  now rewrite !to_dict_lookup by discriminate.
Qed.

Lemma faq_le_keys (a b a' b' : Document) :
  faq_sort_key a = faq_sort_key a' → faq_sort_key b = faq_sort_key b' →
  faq_le a b → faq_le a' b'.
Proof.
  unfold faq_le, faq_sort_key. now intros [= <- <-] [= <- <-].
Qed.

Lemma stored_from_typed (n : N) (docs : list Document) :
  forallb faq_typed docs = true →
  Forall (λ sd, faq_typed (to_dict sd) = true) (stored_from n docs).
Proof.
  revert n. induction docs as [| d docs IH]; intros n; cbn [stored_from forallb].
  - constructor.
  - intros [Hd Hrest]%andb_true_iff. constructor; [| now apply IH].
    now rewrite (proj2 (to_dict_stored_key _ _)).
Qed.

Lemma stored_from_questions (n : N) (docs : list Document) :
  (λ d : Document, d !! "question") <$> (rendered <$> stored_from n docs)
    = (λ d : Document, d !! "question") <$> docs.
Proof.
  revert n. induction docs as [| d docs IH]; intros n; cbn [stored_from];
    [reflexivity |].
  rewrite !fmap_cons, IH. f_equal.
  now rewrite rendered_lookup, to_dict_lookup by discriminate.
Qed.

Lemma stored_from_bounded (d : Document) (o : ObjectId) (n : N)
    (docs : list Document) :
  Forall (faq_le d) docs →
  Forall (faq_le (to_dict (mkStored o d))) (to_dict <$> stored_from n docs).
Proof.
  intros Hall. revert n.
  induction Hall as [| d' docs Hd' Hall IH]; intros n; cbn [stored_from].
  - constructor.
  - rewrite fmap_cons. constructor; [| apply IH].
    apply (faq_le_keys d d'); [| | exact Hd'];
      symmetry; apply to_dict_stored_key.
Qed.

Lemma stored_from_sorted (n : N) (docs : list Document) :
  StronglySorted faq_le docs →
  StronglySorted faq_le (to_dict <$> stored_from n docs).
Proof.
  intros Hs. revert n.
  induction Hs as [| d docs Hs IH Hd]; intros n; cbn [stored_from].
  - constructor.
  - rewrite fmap_cons. constructor; [apply IH | now apply stored_from_bounded].
Qed.

Lemma length_stored_from (n : N) (docs : list Document) :
  length (stored_from n docs) = length docs.
Proof.
  revert n. induction docs as [| d docs IH]; intros n; cbn [stored_from length];
    [reflexivity |]. now rewrite IH.
Qed.

(** X20: on a store whose FAQ collection is empty, a run of [seed]
    followed by [get_faqs] lists the four seeded questions, in the order
    of their [order] fields 1 to 4. *)
Theorem faqs_after_seed (db : Store) :
  collection db "faq" = [] →
  ∃ faqs,
    get_faqs (seed db).2 = (inr faqs, (seed db).2)
    ∧ (λ d : Document, d !! "question") <$> faqs
      = [Some (VStr "Where do trips depart from?");
         Some (VStr "How many guests can join?");
         Some (VStr "What should I bring?");
         Some (VStr "Is the glass bottom safe?")].
Proof.
  intros Hempty. destruct (seed_faqs_when_empty db Hempty) as [n Hcoll].
  assert (Hfetched : take 100 (collection (seed db).2 "faq")
                     = stored_from n seed_faqs).
  { rewrite Hcoll. apply take_ge. rewrite length_stored_from. cbn. lia. }
  exists (rendered <$> take 100 (collection (seed db).2 "faq")). split.
  - apply get_faqs_sorted_input; rewrite Hfetched.
    + apply stored_from_typed. by_computation.
    + apply stored_from_sorted, sorted_by_check. by_computation.
  - rewrite Hfetched, stored_from_questions. by_computation.
Qed.

Lemma faqs_after_seed_witness :
  ∃ faqs,
    get_faqs (seed empty_store).2 = (inr faqs, (seed empty_store).2)
    ∧ length ((λ d : Document, d !! "question") <$> faqs) = 4%nat.
Proof.
  destruct (faqs_after_seed empty_store) as (faqs & Hrun & Hquestions).
  - by_computation.
  - exists faqs. split; [exact Hrun |]. now rewrite Hquestions.
Defined.
